(** * codemap: a shallow embedding of the indexing server's helpers

    The development follows the Go packages of the repository:
    - [util]        path/URI helpers and node identifiers,
    - [lsp]         the LSP base-protocol framing ([ReadMessage], [WriteMessage]),
    - [server]      the tool handlers ([index], the query tools, [readSource]),
    - [downloader]  the language-server installer.

    Go [string] and [[]byte] values are lists of bytes ([list ascii]); Go [int]
    is [Z]; Go maps are stdpp [gmap]s.  The few functions of the Go standard
    library that the code calls are modelled first, each after its documented
    behaviour on the non-Windows build. *)

From Stdlib Require Import ZArith List String Ascii Lia Bool.
From stdpp Require Import base gmap strings list.
Import ListNotations.
Open Scope Z_scope.

Abbreviation bytes := (list ascii).

(** [bs "lit"] is the byte string of a literal. *)
Definition bs (s : string) : bytes := list_ascii_of_string s.

(** ** Package [strings] of the Go standard library *)
Module strings.

Fixpoint HasPrefix (s prefix : bytes) {struct prefix} : bool :=
  match prefix, s with
  | [], _ => true
  | p :: prefix', c :: s' => Ascii.eqb c p && HasPrefix s' prefix'
  | _ :: _, [] => false
  end.

(** [Index s sep]: offset of the first occurrence of [sep] in [s]. *)
Fixpoint Index (s sep : bytes) : option nat :=
  if HasPrefix s sep then Some 0%nat
  else match s with
       | [] => None
       | _ :: s' => S <$> Index s' sep
       end.

Definition Contains (s substr : bytes) : bool :=
  match Index s substr with
  | Some _ => true
  | None => false
  end.

(** [SplitN s sep n] for a non-empty separator and [n >= 0]: at most [n]
    pieces, the last one holding the unsplit remainder. *)
Fixpoint SplitN (s sep : bytes) (n : nat) : list bytes :=
  match n with
  | O => []
  | S O => [s]
  | S n' =>
      match Index s sep with
      | None => [s]
      | Some m => take m s :: SplitN (drop (m + length sep) s) sep n'
      end
  end.

(** [ReplaceAll s old new] for a non-empty [old]; [skip] counts the bytes of a
    replaced occurrence still to pass over. *)
Fixpoint replaceFrom (old new s : bytes) (skip : nat) : bytes :=
  match s with
  | [] => []
  | c :: s' =>
      match skip with
      | S skip' => replaceFrom old new s' skip'
      | O =>
          if HasPrefix s old then new ++ replaceFrom old new s' (length old - 1)
          else c :: replaceFrom old new s' 0
      end
  end.

Definition ReplaceAll (s old new : bytes) : bytes := replaceFrom old new s 0.

(** The white space of [unicode.IsSpace], as UTF-8 byte sequences:
    the six ASCII spaces, U+0085, U+00A0, U+1680, U+2000..U+200A, U+2028,
    U+2029, U+202F, U+205F and U+3000. *)
Definition chr (n : nat) : ascii := ascii_of_nat n.

Definition spaceRunes : list bytes :=
  [ [chr 9]; [chr 10]; [chr 11]; [chr 12]; [chr 13]; [chr 32];
    [chr 194; chr 133]; [chr 194; chr 160];
    [chr 225; chr 154; chr 128];
    [chr 226; chr 128; chr 128]; [chr 226; chr 128; chr 129];
    [chr 226; chr 128; chr 130]; [chr 226; chr 128; chr 131];
    [chr 226; chr 128; chr 132]; [chr 226; chr 128; chr 133];
    [chr 226; chr 128; chr 134]; [chr 226; chr 128; chr 135];
    [chr 226; chr 128; chr 136]; [chr 226; chr 128; chr 137];
    [chr 226; chr 128; chr 138];
    [chr 226; chr 128; chr 168]; [chr 226; chr 128; chr 169];
    [chr 226; chr 128; chr 175]; [chr 226; chr 129; chr 159];
    [chr 227; chr 128; chr 128] ].

(** Width in bytes of the white-space rune that starts [s], if one does. *)
Definition leadingSpace (runes : list bytes) (s : bytes) : option nat :=
  length <$> find (HasPrefix s) runes.

Fixpoint TrimLeftSpace (fuel : nat) (s : bytes) : bytes :=
  match fuel with
  | O => s
  | S fuel' =>
      match leadingSpace spaceRunes s with
      | Some w => TrimLeftSpace fuel' (drop w s)
      | None => s
      end
  end.

(** Trailing white space is that of the reversed string against the reversed
    encodings: a rune's continuation bytes never start a rune, so decoding the
    last rune finds exactly the encodings above. *)
Fixpoint TrimRightSpaceRev (fuel : nat) (r : bytes) : bytes :=
  match fuel with
  | O => r
  | S fuel' =>
      match leadingSpace (map (@rev ascii) spaceRunes) r with
      | Some w => TrimRightSpaceRev fuel' (drop w r)
      | None => r
      end
  end.

Definition TrimSpace (s : bytes) : bytes :=
  let l := TrimLeftSpace (length s) s in
  rev (TrimRightSpaceRev (length l) (rev l)).

End strings.

(** ** Package [path/filepath], Unix build *)
Module filepath.

Definition Separator : ascii := "/"%char.

Definition IsPathSeparator (c : ascii) : bool := Ascii.eqb c Separator.

Definition ToSlash (path : bytes) : bytes :=
  if Ascii.eqb Separator "/" then path
  else strings.ReplaceAll path [Separator] (bs "/").

Definition FromSlash (path : bytes) : bytes :=
  if Ascii.eqb Separator "/" then path
  else strings.ReplaceAll path (bs "/") [Separator].

Definition IsAbs (path : bytes) : bool := strings.HasPrefix path (bs "/").

(** The write index after a [..] element backs up: one byte, then on to the
    previous separator, never below [dotdot]. *)
Fixpoint backtrack (buf : bytes) (dotdot w : nat) : nat :=
  match w with
  | O => O
  | S w' =>
      if (dotdot <? w)%nat && negb (IsPathSeparator (nth w buf Separator))
      then backtrack buf dotdot w'
      else w
  end.

(** Is the element that started just before [rest] finished here? *)
Definition elemEnds (rest : bytes) : bool :=
  match rest with
  | [] => true
  | c :: _ => IsPathSeparator c
  end.

(** The main loop of [Clean]: [path] is what is left to read, [out] the
    buffer written so far ([out.w] is its length). *)
Fixpoint cleanLoop (fuel : nat) (rooted : bool) (path out : bytes) (dotdot : nat)
  : bytes :=
  match fuel, path with
  | O, _ => out
  | _, [] => out
  | S fuel', c :: rest =>
      if IsPathSeparator c then
        cleanLoop fuel' rooted rest out dotdot
      else if Ascii.eqb c "." && elemEnds rest then
        cleanLoop fuel' rooted rest out dotdot
      else if Ascii.eqb c "." && strings.HasPrefix rest (bs ".") && elemEnds (drop 1 rest) then
        let rest2 := drop 1 rest in
        if (dotdot <? length out)%nat then
          cleanLoop fuel' rooted rest2
            (take (backtrack out dotdot (length out - 1)) out) dotdot
        else if negb rooted then
          let out1 := if (0 <? length out)%nat then out ++ [Separator] else out in
          let out2 := out1 ++ bs ".." in
          cleanLoop fuel' rooted rest2 out2 (length out2)
        else
          cleanLoop fuel' rooted rest2 out dotdot
      else
        let out1 :=
          if (rooted && negb (length out =? 1)%nat) || (negb rooted && negb (length out =? 0)%nat)
          then out ++ [Separator] else out in
        let n := default (length path) (strings.Index path [Separator]) in
        cleanLoop fuel' rooted (drop n path) (out1 ++ take n path) dotdot
  end.

Definition Clean (path : bytes) : bytes :=
  match path with
  | [] => bs "."
  | c :: rest =>
      let rooted := IsPathSeparator c in
      let out :=
        if rooted then cleanLoop (length rest) true rest [Separator] 1
        else cleanLoop (length path) false path [] 0 in
      FromSlash (match out with [] => bs "." | _ => out end)
  end.

(** [Join wd path], the two-element call made by [Abs]. *)
Definition Join2 (a b : bytes) : bytes :=
  match a, b with
  | [], [] => []
  | [], _ => Clean b
  | _, _ => Clean (a ++ [Separator] ++ b)
  end.

(** [Abs]: [wd] is the outcome of [os.Getwd], [None] when it fails. *)
Definition Abs (wd : option bytes) (path : bytes) : option bytes :=
  if IsAbs path then Some (Clean path)
  else match wd with
       | None => None
       | Some d => Some (Join2 d path)
       end.

End filepath.

(** ** Package [crypto/sha256]: the generic block function *)
Module sha256.

Definition u32 (x : Z) : Z := x mod 2^32.

(** [bits.RotateLeft32 x (-k)] *)
Definition rotr (x k : Z) : Z :=
  Z.lor (Z.shiftr x k) (u32 (Z.shiftl x (32 - k))).

Definition _K : list Z :=
  [ 1116352408; 1899447441; 3049323471; 3921009573; 961987163; 1508970993;
    2453635748; 2870763221; 3624381080; 310598401; 607225278; 1426881987;
    1925078388; 2162078206; 2614888103; 3248222580; 3835390401; 4022224774;
    264347078; 604807628; 770255983; 1249150122; 1555081692; 1996064986;
    2554220882; 2821834349; 2952996808; 3210313671; 3336571891; 3584528711;
    113926993; 338241895; 666307205; 773529912; 1294757372; 1396182291;
    1695183700; 1986661051; 2177026350; 2456956037; 2730485921; 2820302411;
    3259730800; 3345764771; 3516065817; 3600352804; 4094571909; 275423344;
    430227734; 506948616; 659060556; 883997877; 958139571; 1322822218;
    1537002063; 1747873779; 1955562222; 2024104815; 2227730452; 2361852424;
    2428436474; 2756734187; 3204031479; 3329325298 ].

(** The eight working words [h0 .. h7] of a digest. *)
Record digest : Type := Digest {
  h0 : Z; h1 : Z; h2 : Z; h3 : Z; h4 : Z; h5 : Z; h6 : Z; h7 : Z }.

Definition init : digest :=
  Digest 1779033703 3144134277 1013904242 2773480762
         1359893119 2600822924 528734635 1541459225.

(** The first [n] big-endian 32-bit words of a chunk. *)
Fixpoint beWords (n : nat) (p : list Z) : list Z :=
  match n, p with
  | S n', b0 :: b1 :: b2 :: b3 :: p' =>
      Z.lor (Z.lor (Z.lor (Z.shiftl b0 24) (Z.shiftl b1 16)) (Z.shiftl b2 8)) b3
        :: beWords n' p'
  | _, _ => []
  end.

(** Message schedule; [wrev] holds [w[i-1]; w[i-2]; ...]. *)
Fixpoint schedule (n : nat) (wrev : list Z) : list Z :=
  match n with
  | O => wrev
  | S n' =>
      let v1 := nth 1 wrev 0 in
      let t1 := Z.lxor (Z.lxor (rotr v1 17) (rotr v1 19)) (Z.shiftr v1 10) in
      let v2 := nth 14 wrev 0 in
      let t2 := Z.lxor (Z.lxor (rotr v2 7) (rotr v2 18)) (Z.shiftr v2 3) in
      schedule n' (u32 (t1 + nth 6 wrev 0 + t2 + nth 15 wrev 0) :: wrev)
  end.

(** One of the 64 rounds, on the registers [a .. h]. *)
Definition round (r : digest) (kw : Z * Z) : digest :=
  let '(Digest a b c d e f g h) := r in
  let t1 := h + Z.lxor (Z.lxor (rotr e 6) (rotr e 11)) (rotr e 25)
              + Z.lxor (Z.land e f) (Z.land (Z.lxor e (2^32 - 1)) g)
              + fst kw + snd kw in
  let t2 := Z.lxor (Z.lxor (rotr a 2) (rotr a 13)) (rotr a 22)
            + Z.lxor (Z.lxor (Z.land a b) (Z.land a c)) (Z.land b c) in
  Digest (u32 (t1 + t2)) a b c (u32 (d + t1)) e f g.

Definition blockGeneric (dig : digest) (chunk : list Z) : digest :=
  let w := rev (schedule 48 (rev (beWords 16 chunk))) in
  let r := fold_left round (combine _K w) dig in
  Digest (u32 (h0 dig + h0 r)) (u32 (h1 dig + h1 r)) (u32 (h2 dig + h2 r))
         (u32 (h3 dig + h3 r)) (u32 (h4 dig + h4 r)) (u32 (h5 dig + h5 r))
         (u32 (h6 dig + h6 r)) (u32 (h7 dig + h7 r)).

Fixpoint blocks (n : nat) (dig : digest) (p : list Z) : digest :=
  match n with
  | O => dig
  | S n' => blocks n' (blockGeneric dig (take 64 p)) (drop 64 p)
  end.

(** Big-endian bytes of a word, [n] of them. *)
Fixpoint beBytes (n : nat) (x : Z) : list Z :=
  match n with
  | O => []
  | S n' => Z.land (Z.shiftr x (8 * Z.of_nat n')) 255 :: beBytes n' x
  end.

(** The padding of [checkSum]: a 1 bit, zeros up to 56 bytes mod 64, and the
    length in bits as a [uint64]. *)
Definition padding (len : Z) : list Z :=
  let t := if len mod 64 <? 56 then 56 - len mod 64 else 64 + 56 - len mod 64 in
  128 :: repeat 0 (Z.to_nat (t - 1)) ++ beBytes 8 ((len * 8) mod 2^64).

Definition byteVal (c : ascii) : Z := Z.of_nat (nat_of_ascii c).

Definition byteOf (v : Z) : ascii := ascii_of_nat (Z.to_nat v).

Definition Sum256 (data : bytes) : bytes :=
  let p := map byteVal data ++ padding (Z.of_nat (length data)) in
  let d := blocks (length p / 64) init p in
  map byteOf
    (beBytes 4 (h0 d) ++ beBytes 4 (h1 d) ++ beBytes 4 (h2 d) ++ beBytes 4 (h3 d) ++
     beBytes 4 (h4 d) ++ beBytes 4 (h5 d) ++ beBytes 4 (h6 d) ++ beBytes 4 (h7 d)).

End sha256.

(** ** Package [encoding/hex] *)
Module hex.

Definition hextable : bytes := bs "0123456789abcdef".

Definition encodeByte (c : ascii) : bytes :=
  let v := nat_of_ascii c in
  [nth (v / 16)%nat hextable "0"%char; nth (v mod 16)%nat hextable "0"%char].

Definition EncodeToString (src : bytes) : bytes := flat_map encodeByte src.

(** [fromHexChar], on the lower-case digits [EncodeToString] produces. *)
Definition fromHexChar (c : ascii) : nat :=
  default 0%nat (strings.Index hextable [c]).

Definition decodeByte (hi lo : ascii) : ascii :=
  ascii_of_nat (fromHexChar hi * 16 + fromHexChar lo).

End hex.

(** ** Package [strconv] on a 64-bit platform *)
Module strconv.

Definition isDigit (ch : ascii) : bool :=
  (48 <=? nat_of_ascii ch)%nat && (nat_of_ascii ch <=? 57)%nat.

Definition digitVal (ch : ascii) : Z := Z.of_nat (nat_of_ascii ch) - 48.

(** The digit loop of [Atoi]: [n = n*10 + int(ch - '0')], a syntax error on
    any other byte. *)
Fixpoint parseDigits (s : bytes) (n : Z) : option Z :=
  match s with
  | [] => Some n
  | ch :: s' => if isDigit ch then parseDigits s' (n * 10 + digitVal ch) else None
  end.

(** [Atoi]: an optional sign, at least one digit, nothing else; [None] stands
    for both of its errors (syntax, and a value outside [int]). *)
Definition Atoi (s : bytes) : option Z :=
  let '(neg, digits) :=
    match s with
    | c :: t => if Ascii.eqb c "-" then (true, t)
                else if Ascii.eqb c "+" then (false, t) else (false, s)
    | [] => (false, s)
    end in
  match digits with
  | [] => None
  | _ =>
      un ← parseDigits digits 0;
      let n := if neg : bool then - un else un in
      if (- 2^63 <=? n) && (n <=? 2^63 - 1) then Some n else None
  end.

Definition digitChar (d : Z) : ascii := ascii_of_nat (Z.to_nat (48 + d)).

(** The digits of [u], most significant first, in front of [acc]. *)
Fixpoint formatBits (fuel : nat) (u : Z) (acc : bytes) : bytes :=
  match fuel with
  | O => acc
  | S fuel' =>
      let acc' := digitChar (u mod 10) :: acc in
      if u <? 10 then acc' else formatBits fuel' (u / 10) acc'
  end.

(** [Itoa], also the verb [%d]; a [uint64] has at most 20 digits. *)
Definition Itoa (i : Z) : bytes :=
  if i <? 0 then "-"%char :: formatBits 20 (- i) [] else formatBits 20 i [].

End strconv.

Definition CR : ascii := ascii_of_nat 13.
Definition LF : ascii := ascii_of_nat 10.
Definition CRLF : bytes := [CR; LF].

(** ** Package [bufio]: a reader is the bytes it has yet to deliver *)
Module bufio.

(** [ReadString delim]: the data up to and including the first [delim], and
    the reader after it; [None] is [io.EOF], met before any [delim]. *)
Definition ReadString (r : bytes) (delim : ascii) : option (bytes * bytes) :=
  match strings.Index r [delim] with
  | Some i => Some (take (S i) r, drop (S i) r)
  | None => None
  end.

(** [Scanner] with the default split function [ScanLines] and the default
    buffer limit. *)
Definition MaxScanTokenSize : nat := 64 * 1024.

Definition dropCR (data : bytes) : bytes :=
  match last data with
  | Some c => if Ascii.eqb c CR then take (length data - 1) data else data
  | None => data
  end.

Inductive scanned : Type :=
| Token (tok rest : bytes)   (* [Scan] returned true *)
| Done                       (* [Scan] returned false, [Err] is nil *)
| TooLong.                   (* [Scan] returned false, [Err] is [ErrTooLong] *)

(** One call of [Scan] on the unread [data].  A line is a token when its line
    feed (or the end of the input) shows up within a full buffer. *)
Definition Scan (data : bytes) : scanned :=
  match data with
  | [] => Done
  | _ =>
      match strings.Index data [LF] with
      | Some i =>
          if (i <? MaxScanTokenSize)%nat
          then Token (dropCR (take i data)) (drop (S i) data)
          else TooLong
      | None =>
          if (length data <? MaxScanTokenSize)%nat
          then Token (dropCR data) []
          else TooLong
      end
  end.

End bufio.

(** ** Package [lsp]: framing *)
Module lsp.

Inductive ioError : Type :=
| EOF
| ErrUnexpectedEOF
| ErrClosedPipe.

Inductive error : Type :=
| ReadErr (e : ioError)                 (* [return nil, err] of [ReadString] *)
| InvalidContentLength (value : bytes)  (* "invalid Content-Length: %v" *)
| MissingOrZero                         (* "missing or zero Content-Length" *)
| BodyReadFailed (e : ioError)          (* "failed to read body: %v" *)
| MarshalFailed                         (* "failed to marshal message: %v" *)
| WriteErr (e : ioError).               (* [return err] of [w.Write] *)

(** What a call produces: a value, an error, or a run-time panic. *)
Inductive outcome (A : Type) : Type :=
| Ok (a : A)
| Err (e : error)
| Panic.
Arguments Ok {A} a.
Arguments Err {A} e.
Arguments Panic {A}.

(** [make([]byte, n)] panics for [n < 0] and for [n] above the allocation
    limit of the runtime (2^48 bytes on 64-bit Linux). *)
Definition maxAlloc : Z := 2^48.

(** The header test of the loop, [len(parts) == 2 && parts[0] == "Content-Length"],
    on a trimmed line: the value part when it holds. *)
Definition contentLengthValue (line : bytes) : option bytes :=
  match strings.SplitN line (bs ": ") 2 with
  | [k; v] => if decide (k = bs "Content-Length") then Some v else None
  | _ => None
  end.

(** The header loop.  It stops at the first blank line with the last
    [Content-Length] seen (0 when there was none).  Every line read takes at
    least one byte from the reader, so [length r] rounds are enough; with none
    left the reader is empty and [ReadString] reports [io.EOF]. *)
Fixpoint readHeaders (fuel : nat) (contentLength : Z) (r : bytes)
  : outcome Z * bytes :=
  match fuel with
  | O => (Err (ReadErr EOF), [])
  | S fuel' =>
      match bufio.ReadString r LF with
      | None => (Err (ReadErr EOF), [])
      | Some (line, r') =>
          let line := strings.TrimSpace line in
          match line with
          | [] => (Ok contentLength, r')
          | _ =>
              match contentLengthValue line with
              | Some v =>
                  match strconv.Atoi v with
                  | Some n => readHeaders fuel' n r'
                  | None => (Err (InvalidContentLength v), r')
                  end
              | None => readHeaders fuel' contentLength r'
              end
          end
      end
  end.

(** [io.ReadFull] into a buffer of [n > 0] bytes. *)
Definition ReadFull (r : bytes) (n : nat) : outcome bytes * bytes :=
  if (length r <? n)%nat
  then (Err (BodyReadFailed (match r with [] => EOF | _ => ErrUnexpectedEOF end)), [])
  else (Ok (take n r), drop n r).

(** [ReadMessage] reads an LSP message (header + body) from the reader, and
    leaves the reader after it. *)
Definition ReadMessage (r : bytes) : outcome bytes * bytes :=
  match readHeaders (length r) 0 r with
  | (Ok contentLength, r') =>
      if contentLength =? 0 then (Err MissingOrZero, r')
      else if (contentLength <? 0) || (maxAlloc <? contentLength) then (Panic, r')
      else ReadFull r' (Z.to_nat contentLength)
  | (Err e, r') => (Err e, r')
  | (Panic, r') => (Panic, r')
  end.

(** A writer: the bytes written so far, and whether it still accepts any. *)
Record Writer : Type := { written : bytes; closed : bool }.

Definition Write (w : Writer) (p : bytes) : option ioError * Writer :=
  if closed w then (Some ErrClosedPipe, w)
  else (None, {| written := written w ++ p; closed := false |}).

Section WriteMessage.

(** [json.Marshal] on the messages of type [V]; [None] is its error. *)
Context {V : Type} (Marshal : V -> option bytes).

(** [WriteMessage] writes an LSP message to the writer. *)
Definition WriteMessage (w : Writer) (msg : V) : option error * Writer :=
  match Marshal msg with
  | None => (Some MarshalFailed, w)
  | Some body =>
      let header := bs "Content-Length: " ++ strconv.Itoa (Z.of_nat (length body)) ++ CRLF ++ CRLF in
      match Write w header with
      | (Some e, w1) => (Some (WriteErr e), w1)
      | (None, w1) =>
          match Write w1 body with
          | (Some e, w2) => (Some (WriteErr e), w2)
          | (None, w2) => (None, w2)
          end
      end
  end.

(** Messages written one after the other; stops at the first error. *)
Fixpoint WriteMessages (w : Writer) (msgs : list V) : option error * Writer :=
  match msgs with
  | [] => (None, w)
  | msg :: msgs' =>
      match WriteMessage w msg with
      | (None, w') => WriteMessages w' msgs'
      | (Some e, w') => (Some e, w')
      end
  end.

End WriteMessage.

(** A fresh stream to write to. *)
Definition newWriter : Writer := {| written := []; closed := false |}.

(** The header name and separator that [WriteMessage] prints. *)
Definition hdr : bytes := bs "Content-Length: ".

(** One framed message: what [WriteMessage] puts on the wire for [body]. *)
Definition frame (body : bytes) : bytes :=
  hdr ++ strconv.Itoa (Z.of_nat (length body)) ++ CRLF ++ CRLF ++ body.

(** A marshaller to run the framing on: the JSON text of a boolean. *)
Definition marshalBool (b : bool) : option bytes :=
  Some (if b then bs "true" else bs "false").

(** [n] consecutive calls of [ReadMessage] on one reader. *)
Fixpoint ReadMessages (n : nat) (r : bytes) : list (outcome bytes) * bytes :=
  match n with
  | O => ([], r)
  | S n' =>
      let '(o, r1) := ReadMessage r in
      let '(os, r2) := ReadMessages n' r1 in
      (o :: os, r2)
  end.

(** The non-blank lines that the header loop meets, terminators included. *)
Fixpoint headerLines (fuel : nat) (r : bytes) : list bytes :=
  match fuel with
  | O => []
  | S fuel' =>
      match bufio.ReadString r LF with
      | None => []
      | Some (line, r') =>
          match strings.TrimSpace line with
          | [] => []
          | _ => line :: headerLines fuel' r'
          end
      end
  end.

(** The reader after the blank line that ends the header section; [None]
    when the stream ends before one. *)
Fixpoint afterHeaders (fuel : nat) (r : bytes) : option bytes :=
  match fuel with
  | O => None
  | S fuel' =>
      match bufio.ReadString r LF with
      | None => None
      | Some (line, r') =>
          match strings.TrimSpace line with
          | [] => Some r'
          | _ => afterHeaders fuel' r'
          end
      end
  end.

(** What a raw header line declares: [None] when the loop does not take it
    for a [Content-Length] header, [Some None] when its value is no [int],
    [Some (Some n)] otherwise. *)
Definition declaredLength (line : bytes) : option (option Z) :=
  strconv.Atoi <$> contentLengthValue (strings.TrimSpace line).

(** The length in force after the lines [hs], starting from [cl]: the last
    one declared. *)
Definition lastLength (cl : Z) (hs : list bytes) : Z :=
  fold_left (fun acc line =>
               match declaredLength line with
               | Some (Some n) => n
               | _ => acc
               end) hs cl.

(** A header line in the sense of the base protocol, [name ": " value] with
    a name. *)
Definition headerField (line : bytes) : bool :=
  match strings.Index line (bs ": ") with
  | Some (S _) => true
  | _ => false
  end.

(** A line (without its terminator) that is neither the blank line nor a
    [Content-Length] header, and holds no line feed. *)
Definition otherHeader (h : bytes) : bool :=
  bool_decide (LF ∉ h) &&
  bool_decide (strings.TrimSpace (h ++ CRLF) <> []) &&
  bool_decide (declaredLength (h ++ CRLF) = None).

(** Header lines on the wire, each closed by CR LF. *)
Definition headerBlock (hs : list bytes) : bytes :=
  concat (map (fun h => h ++ CRLF) hs).

End lsp.

(** ** Package [util] *)
Module util.

Definition convertToSlash (path : bytes) : bytes := filepath.ToSlash path.

Definition convertFromSlash (path : bytes) : bytes := filepath.FromSlash path.

Definition PathToURI (wd : option bytes) (path : bytes) : bytes :=
  match filepath.Abs wd path with
  | None => bs "file://" ++ path
  | Some abs => bs "file://" ++ convertToSlash abs
  end.

Definition URIToPath (uri : bytes) : bytes :=
  if strings.HasPrefix uri (bs "file://") then convertFromSlash (drop 7 uri)
  else uri.

(** [GenerateNodeID] creates a deterministic hash for a node based on file
    path and symbol name. *)
Definition GenerateNodeID (filePath symbolName : bytes) : bytes :=
  let input := filePath ++ bs ":" ++ symbolName in
  let hash := sha256.Sum256 input in
  hex.EncodeToString hash.

End util.

(** ** Package [server] *)
Module server.

(** A Go [error], by its message. *)
Abbreviation error := bytes.

(** Modelled from the spec: the index status, one of idle, in-progress,
    ready and failed; the handlers name the last three. *)
Inductive IndexStatus : Type :=
| IndexStatusIdle
| IndexStatusInProgress
| IndexStatusReady
| IndexStatusFailed.

Global Instance IndexStatus_eq_dec : EqDecision IndexStatus.
Proof. solve_decision. Defined.

(** Modelled from the spec: [graph.Node] and [graph.Edge], whose declarations
    are not among the sources, with the attributes of the data model; the
    handlers read the name, the kind, the file path and the range. *)
Record Node : Type := {
  ID : bytes; Name : bytes; Kind : bytes; FilePath : bytes; URI : bytes;
  LineStart : Z; LineEnd : Z; ColStart : Z; ColEnd : Z }.

Record Edge : Type := { Source : bytes; Target : bytes; Relation : bytes }.

Inductive CallToolResult : Type :=
| errorResult (msg : bytes)
| textResult (msg : bytes).

(** Modelled from the spec: the fields of [Server] behind [indexMu], status,
    last error and readiness; [indexReady] is whether the readiness channel
    has been closed. *)
Record Server : Type := {
  indexStatus : IndexStatus;
  indexError : option error;
  indexReady : bool }.

(** Modelled from the spec: [setIndexStatus], whose body is not among the
    sources.  It stores the status and the last error under [indexMu], and a
    transition to ready latches the readiness signal. *)
Definition setIndexStatus (status : IndexStatus) (err : option error) (s : Server) : Server :=
  {| indexStatus := status;
     indexError := err;
     indexReady := if decide (status = IndexStatusReady) then true else indexReady s |}.

(** Modelled from the spec: [GetIndexStatus] returns the status and the last
    error (the duration is left out). *)
Definition GetIndexStatus (s : Server) : IndexStatus * option error :=
  (indexStatus s, indexError s).

(** [s.indexReady = make(chan struct{})] *)
Definition resetReady (s : Server) : Server :=
  {| indexStatus := indexStatus s; indexError := indexError s; indexReady := false |}.

(** *** The [index] tool *)

(** What the collaborators answer during one run: scanner, store and
    enricher, and the elapsed seconds as [%.2f] prints them. *)
Record IndexEnv : Type := {
  scan : list Node + error;
  upsertNodes : option error;
  prune : option error;
  enrich : list Edge + error;
  upsertEdges : option error;
  seconds : bytes }.

(** The calls a run makes, in order. *)
Inductive event : Type :=
| EvScan
| EvBulkUpsertNodes (nodes : list Node)
| EvPruneStaleFiles (validFilePaths : list bytes)
| EvEnrich (nodes : list Node)
| EvBulkUpsertEdges (edges : list Edge)
| EvSetIndexStatus (status : IndexStatus) (err : option error)
| EvResetReady
| EvWarning (msg : bytes).

Definition isStoreMutation (e : event) : bool :=
  match e with
  | EvBulkUpsertNodes _ | EvPruneStaleFiles _ | EvBulkUpsertEdges _ => true
  | _ => false
  end.

(** The server and the calls made so far, each with the call that made it. *)
Record World : Type := { srv : Server; trace : list (nat * event) }.

Definition emit (tid : nat) (e : event) (w : World) : World :=
  {| srv := srv w; trace := trace w ++ [(tid, e)] |}.

Definition update (tid : nat) (e : event) (f : Server -> Server) (w : World) : World :=
  {| srv := f (srv w); trace := trace w ++ [(tid, e)] |}.

(** COLLECT VALID FILES: the distinct file paths, in order of appearance. *)
Definition collectValidFiles (nodes : list Node) : list bytes :=
  snd (fold_left
         (fun (acc : gmap bytes bool * list bytes) n =>
            if default false (fst acc !! FilePath n) then acc
            else (<[FilePath n := true]> (fst acc), snd acc ++ [FilePath n]))
         nodes (∅, [])).

(** Where a call of the handler stands.  Between two points lies one access
    to the shared state or one call of a collaborator. *)
Inductive pc : Type :=
| AtStart
| AtReset (currentStatus : IndexStatus)
| AtSetInProgress
| AtScan
| AtUpsertNodes (nodes : list Node)
| AtPrune (nodes : list Node) (validFileList : list bytes)
| AtEnrich (nodes : list Node)
| AtUpsertEdges (nodes : list Node) (edges : list Edge)
| AtSetReady (nodes : list Node) (edges : list Edge)
| AtSetFailed (err : error) (res : CallToolResult)
| Returned (res : CallToolResult).

Definition indexedMsg (env : IndexEnv) (nodes : list Node) (edges : list Edge) : bytes :=
  bs "Indexed " ++ strconv.Itoa (Z.of_nat (length nodes)) ++ bs " nodes and " ++
  strconv.Itoa (Z.of_nat (length edges)) ++ bs " edges in " ++ seconds env ++ bs "s".

(** One step of the call [tid] of the handler. *)
Definition step (tid : nat) (env : IndexEnv) (w : World) (p : pc) : World * pc :=
  match p with
  | AtStart =>
      (* Check if already indexing *)
      let currentStatus := indexStatus (srv w) in
      if decide (currentStatus = IndexStatusInProgress)
      then (w, Returned (errorResult (bs "Indexing already in progress")))
      else (w, AtReset currentStatus)
  | AtReset currentStatus =>
      (* Reset indexReady channel if this is a re-index *)
      if decide (currentStatus = IndexStatusReady \/ currentStatus = IndexStatusFailed)
      then (update tid EvResetReady resetReady w, AtSetInProgress)
      else (w, AtSetInProgress)
  | AtSetInProgress =>
      (update tid (EvSetIndexStatus IndexStatusInProgress None)
         (setIndexStatus IndexStatusInProgress None) w, AtScan)
  | AtScan =>
      match scan env with
      | inr err =>
          (emit tid EvScan w,
           AtSetFailed (bs "scan failed: " ++ err) (errorResult (bs "Scan failed: " ++ err)))
      | inl nodes => (emit tid EvScan w, AtUpsertNodes nodes)
      end
  | AtUpsertNodes nodes =>
      match upsertNodes env with
      | Some err =>
          (emit tid (EvBulkUpsertNodes nodes) w,
           AtSetFailed (bs "failed to store nodes: " ++ err)
             (errorResult (bs "Failed to store nodes: " ++ err)))
      | None => (emit tid (EvBulkUpsertNodes nodes) w, AtPrune nodes (collectValidFiles nodes))
      end
  | AtPrune nodes validFileList =>
      (* PRUNE STALE DATA *)
      match prune env with
      | Some err =>
          (* Log warning but don't fail *)
          (emit tid (EvWarning (bs "Warning: Failed to prune stale files: " ++ err))
             (emit tid (EvPruneStaleFiles validFileList) w), AtEnrich nodes)
      | None => (emit tid (EvPruneStaleFiles validFileList) w, AtEnrich nodes)
      end
  | AtEnrich nodes =>
      match enrich env with
      | inr err =>
          (emit tid (EvEnrich nodes) w,
           AtSetFailed (bs "LSP enrichment failed: " ++ err)
             (errorResult (bs "Enrich failed: " ++ err)))
      | inl edges => (emit tid (EvEnrich nodes) w, AtUpsertEdges nodes edges)
      end
  | AtUpsertEdges nodes edges =>
      match upsertEdges env with
      | Some err =>
          (emit tid (EvBulkUpsertEdges edges) w,
           AtSetFailed (bs "failed to store edges: " ++ err)
             (errorResult (bs "Failed to store edges: " ++ err)))
      | None => (emit tid (EvBulkUpsertEdges edges) w, AtSetReady nodes edges)
      end
  | AtSetReady nodes edges =>
      (update tid (EvSetIndexStatus IndexStatusReady None)
         (setIndexStatus IndexStatusReady None) w,
       Returned (textResult (indexedMsg env nodes edges)))
  | AtSetFailed err res =>
      (update tid (EvSetIndexStatus IndexStatusFailed (Some err))
         (setIndexStatus IndexStatusFailed (Some err)) w,
       Returned res)
  | Returned res => (w, Returned res)
  end.

Fixpoint steps (n : nat) (tid : nat) (env : IndexEnv) (w : World) (p : pc) : World * pc :=
  match n with
  | O => (w, p)
  | S n' => let '(w', p') := step tid env w p in steps n' tid env w' p'
  end.

(** One call of the handler, run alone from start to return: the longest
    path has nine steps. *)
Definition index (env : IndexEnv) (w : World) : World * pc := steps 9 0 env w AtStart.

(** Two calls of the handler running together, and a schedule that tells
    which one moves next ([true]: the first). *)
Record Config : Type := { world : World; call1 : pc; call2 : pc }.

Definition sched_step (env1 env2 : IndexEnv) (c : Config) (first : bool) : Config :=
  if first
  then let '(w, p) := step 1 env1 (world c) (call1 c) in
       {| world := w; call1 := p; call2 := call2 c |}
  else let '(w, p) := step 2 env2 (world c) (call2 c) in
       {| world := w; call1 := call1 c; call2 := p |}.

Definition exec (env1 env2 : IndexEnv) (schedule : list bool) (c : Config) : Config :=
  fold_left (sched_step env1 env2) schedule c.

(** A call is in flight between its [setIndexStatus(IndexStatusInProgress)]
    and its last [setIndexStatus]. *)
Definition running (p : pc) : bool :=
  match p with
  | AtStart | AtReset _ | AtSetInProgress | Returned _ => false
  | _ => true
  end.

Definition mutationsOf (tid : nat) (w : World) : list event :=
  filter (fun e => isStoreMutation e = true)
    (map snd (filter (fun te => fst te = tid) (trace w))).

(** The calls of a run in which only the prune fails. *)
Definition pruneFailedRun (w : World) (nodes : list Node) (edges : list Edge) (e : error)
  : list (nat * event) :=
  (if decide (indexStatus (srv w) = IndexStatusReady \/ indexStatus (srv w) = IndexStatusFailed)
   then [(0%nat, EvResetReady)] else []) ++
  [ (0%nat, EvSetIndexStatus IndexStatusInProgress None);
    (0%nat, EvScan);
    (0%nat, EvBulkUpsertNodes nodes);
    (0%nat, EvPruneStaleFiles (collectValidFiles nodes));
    (0%nat, EvWarning (bs "Warning: Failed to prune stale files: " ++ e));
    (0%nat, EvEnrich nodes);
    (0%nat, EvBulkUpsertEdges edges);
    (0%nat, EvSetIndexStatus IndexStatusReady None) ].

Definition idle : World :=
  {| srv := {| indexStatus := IndexStatusIdle; indexError := None; indexReady := false |};
     trace := [] |}.

Definition emptyRun : IndexEnv :=
  {| scan := inl []; upsertNodes := None; prune := None; enrich := inl [];
     upsertEdges := None; seconds := bs "0.00" |}.

(** The schedule of the race: each call reads the status before the other
    has set it. *)
Definition raceSchedule : list bool := [true; false; true; false; true; false].

(** *** The query tools *)

(** Time is counted in nanoseconds from the start of the call, as
    [time.Duration] does. *)
Definition Second : Z := 1000000000.

Inductive ctxError : Type := Canceled | DeadlineExceeded.

Definition ctxErrorMsg (e : ctxError) : bytes :=
  match e with
  | Canceled => bs "context canceled"
  | DeadlineExceeded => bs "context deadline exceeded"
  end.

(** A context: when it is done and with which error, [None] if never. *)
Abbreviation Context := (option (Z * ctxError)).

(** [context.WithTimeout]: done at the deadline, or with the parent if that
    is done no later. *)
Definition WithTimeout (parent : Context) (timeout : Z) : Z * ctxError :=
  match parent with
  | Some (t, e) => if t <=? timeout then (t, e) else (timeout, DeadlineExceeded)
  | None => (timeout, DeadlineExceeded)
  end.

(** Modelled from the spec: [WaitForIndex], whose body is not among the
    sources, waits for the readiness signal or for the context, whichever
    comes first.  [readyAt] is the instant the readiness channel is closed
    ([None]: not during this call); the result is the error, if any, and the
    instant of the return.  When both fall on the same instant a [select]
    may take either; the model takes the signal. *)
Definition WaitForIndex (waitCtx : Z * ctxError) (readyAt : option Z)
  : option ctxError * Z :=
  match readyAt with
  | Some t => if t <=? fst waitCtx then (None, t) else (Some (snd waitCtx), fst waitCtx)
  | None => (Some (snd waitCtx), fst waitCtx)
  end.

(** What the rest of the process and the store answer during one query:
    when readiness is signalled, the server as [GetIndexStatus] finds it
    after a failed wait, and the three store queries. *)
Record QueryEnv : Type := {
  readyAt : option Z;
  afterWait : Server;
  GetSymbolsInFile : bytes -> list Node + error;
  FindImpact : bytes -> list Node + error;
  GetSymbolLocation : bytes -> list Node + error;
  openFile : bytes -> bytes + error }.

(** A call of a query tool: its result, how long it waited for the index,
    and whether it went on to query the store. *)
Record ToolRun : Type := {
  result : CallToolResult;
  waited : Z;
  queried : bool }.

(** The wait that opens each of the three handlers: the result to return
    early, if any, and the time spent. *)
Definition awaitIndex (ctx : Context) (q : QueryEnv) : option CallToolResult * Z :=
  (* Wait for initial indexing with timeout *)
  let waitCtx := WithTimeout ctx (30 * Second) in
  match WaitForIndex waitCtx (readyAt q) with
  | (Some err, t) =>
      let '(status, indexErr) := GetIndexStatus (afterWait q) in
      match indexErr with
      | Some e => (Some (errorResult (bs "Indexing failed: " ++ e)), t)
      | None =>
          if decide (status = IndexStatusInProgress)
          then (Some (errorResult (bs "Indexing in progress, please try again")), t)
          else (Some (errorResult (bs "Indexing wait failed: " ++ ctxErrorMsg err)), t)
      end
  | (None, t) => (None, t)
  end.

(** [readSource]: the lines [lineStart .. lineEnd] of the file, joined by
    line feeds.  [fuel] bounds the calls of [Scan], each of which takes at
    least one byte. *)
Fixpoint readLines (fuel : nat) (lineStart lineEnd : Z) (data : bytes)
    (currentLine : Z) (first : bool) (builder : bytes) : bytes + error :=
  match fuel with
  | O => inl builder
  | S fuel' =>
      match bufio.Scan data with
      | bufio.Done => inl builder
      | bufio.TooLong => inr (bs "bufio.Scanner: token too long")
      | bufio.Token tok rest =>
          let '(builder, first) :=
            if (lineStart <=? currentLine) && (currentLine <=? lineEnd)
            then ((if first then builder else builder ++ [LF]) ++ tok, false)
            else (builder, first) in
          if lineEnd <? currentLine then inl builder
          else readLines fuel' lineStart lineEnd rest (currentLine + 1) first builder
      end
  end.

Definition readSource (q : QueryEnv) (filePath : bytes) (lineStart lineEnd : Z)
  : bytes + error :=
  match openFile q filePath with
  | inr err => inr err
  | inl data => readLines (length data) lineStart lineEnd data 1 true []
  end.

Record SimpleNode : Type := { sName : bytes; sKind : bytes; sRange : bytes }.

Record ImpactNode : Type := { iName : bytes; iFilePath : bytes; iKind : bytes }.

Record SymbolInfo : Type := { node : Node; source : bytes }.

Section QueryTools.

(** [json.MarshalIndent] on the three result types. *)
Context (marshalSimple : list SimpleNode -> bytes)
        (marshalImpact : list ImpactNode -> bytes)
        (marshalInfo : list SymbolInfo -> bytes).

Definition simpleNode (n : Node) : SimpleNode :=
  {| sName := Name n; sKind := Kind n;
     sRange := strconv.Itoa (LineStart n) ++ bs ":" ++ strconv.Itoa (ColStart n) ++ bs "-" ++
               strconv.Itoa (LineEnd n) ++ bs ":" ++ strconv.Itoa (ColEnd n) |}.

Definition get_symbols_in_file (ctx : Context) (q : QueryEnv) (file_path : bytes) : ToolRun :=
  match awaitIndex ctx q with
  | (Some res, t) => {| result := res; waited := t; queried := false |}
  | (None, t) =>
      match GetSymbolsInFile q file_path with
      | inr err =>
          {| result := errorResult (bs "Query failed: " ++ err); waited := t; queried := true |}
      | inl nodes =>
          {| result := textResult (marshalSimple (map simpleNode nodes));
             waited := t; queried := true |}
      end
  end.

Definition impactNode (n : Node) : ImpactNode :=
  {| iName := Name n; iFilePath := FilePath n; iKind := Kind n |}.

Definition find_impact (ctx : Context) (q : QueryEnv) (symbol_name : bytes) : ToolRun :=
  match awaitIndex ctx q with
  | (Some res, t) => {| result := res; waited := t; queried := false |}
  | (None, t) =>
      match FindImpact q symbol_name with
      | inr err =>
          {| result := errorResult (bs "Query failed: " ++ err); waited := t; queried := true |}
      | inl [] =>
          {| result := textResult (bs "No impacted symbols found."); waited := t; queried := true |}
      | inl nodes =>
          {| result := textResult (marshalImpact (map impactNode nodes));
             waited := t; queried := true |}
      end
  end.

(** The record of one node in the answer of [get_symbol]. *)
Definition symbolInfo (q : QueryEnv) (with_source : bool) (n : Node) : SymbolInfo :=
  {| node := n;
     source :=
       if with_source then
         match readSource q (FilePath n) (LineStart n) (LineEnd n) with
         | inr _ => []   (* Log warning but return what we have *)
         | inl src => src
         end
       else [] |}.

Definition get_symbol (ctx : Context) (q : QueryEnv) (symbol_name : bytes) (with_source : bool)
  : ToolRun :=
  match awaitIndex ctx q with
  | (Some res, t) => {| result := res; waited := t; queried := false |}
  | (None, t) =>
      match GetSymbolLocation q symbol_name with
      | inr err =>
          {| result := errorResult (bs "Query failed: " ++ err); waited := t; queried := true |}
      | inl [] =>
          {| result := textResult (bs "Symbol not found."); waited := t; queried := true |}
      | inl nodes =>
          {| result := textResult (marshalInfo (map (symbolInfo q with_source) nodes));
             waited := t; queried := true |}
      end
  end.

(** The tools by name, as they are registered. *)
Inductive queryCall : Type :=
| CallGetSymbolsInFile (file_path : bytes)
| CallFindImpact (symbol_name : bytes)
| CallGetSymbol (symbol_name : bytes) (with_source : bool).

Definition callTool (ctx : Context) (q : QueryEnv) (c : queryCall) : ToolRun :=
  match c with
  | CallGetSymbolsInFile file_path => get_symbols_in_file ctx q file_path
  | CallFindImpact symbol_name => find_impact ctx q symbol_name
  | CallGetSymbol symbol_name with_source => get_symbol ctx q symbol_name with_source
  end.

End QueryTools.

(** The wait for readiness fails: the signal does not come before the
    context of the wait is done. *)
Definition waitFails (ctx : Context) (q : QueryEnv) : Prop :=
  match readyAt q with
  | Some t => fst (WithTimeout ctx (30 * Second)) < t
  | None => True
  end.

(** What holds of the server between calls of [index] that run one at a
    time. *)
Definition consistent (s : Server) : Prop :=
  match indexStatus s with
  | IndexStatusIdle | IndexStatusInProgress => indexReady s = false /\ indexError s = None
  | IndexStatusFailed => indexReady s = false /\ indexError s <> None
  | IndexStatusReady => indexError s = None
  end.

Definition failingScan : IndexEnv :=
  {| scan := inr (bs "permission denied"); upsertNodes := None; prune := None;
     enrich := inl []; upsertEdges := None; seconds := bs "0.00" |}.


(** A process in which nothing else happens during the query: readiness is
    there from the start or not at all, and the server stays as it is. *)
Definition quiet (s : Server) (q : QueryEnv) : QueryEnv :=
  {| readyAt := if indexReady s then Some 0 else None;
     afterWait := s;
     GetSymbolsInFile := GetSymbolsInFile q;
     FindImpact := FindImpact q;
     GetSymbolLocation := GetSymbolLocation q;
     openFile := openFile q |}.

(** A process to run the query tools in: the index is ready, the store
    answers every query with [nodes], and one file exists. *)
Definition readyEnv (path data : bytes) (nodes : list Node) : QueryEnv :=
  {| readyAt := Some 0;
     afterWait := {| indexStatus := IndexStatusReady; indexError := None; indexReady := true |};
     GetSymbolsInFile := fun _ => inl nodes;
     FindImpact := fun _ => inl nodes;
     GetSymbolLocation := fun _ => inl nodes;
     openFile := fun p => if decide (p = path) then inl data
                          else inr (bs "open: no such file or directory") |}.

(** The function [Foo] of [/w/a.go], on the lines [lineStart .. lineEnd]. *)
Definition fooNode (lineStart lineEnd : Z) : Node :=
  {| ID := util.GenerateNodeID (bs "/w/a.go") (bs "Foo");
     Name := bs "Foo"; Kind := bs "function"; FilePath := bs "/w/a.go";
     URI := bs "file:///w/a.go";
     LineStart := lineStart; LineEnd := lineEnd; ColStart := 0; ColEnd := 1 |}.

(** A stand-in for the JSON of an answer: the sources, one after the other. *)
Definition showSources (infos : list SymbolInfo) : bytes := concat (map source infos).

(** Lines on disk, each closed by a line feed; and lines joined by line
    feeds, as [readSource] builds its result. *)
Definition unlines (ls : list bytes) : bytes := concat (map (fun l => l ++ [LF]) ls).

Fixpoint joinLines (ls : list bytes) : bytes :=
  match ls with
  | [] => []
  | [l] => l
  | l :: ls' => l ++ [LF] ++ joinLines ls'
  end.

(** A line the scanner can deliver: no line feed inside, and short enough
    for its buffer. *)
Definition scannable (l : bytes) : Prop :=
  (LF ∉ l) /\ (length l < bufio.MaxScanTokenSize)%nat.

(** A line that the scanner delivers as it is: it does not end in a carriage
    return either. *)
Definition plainLine (l : bytes) : Prop :=
  scannable l /\ last l <> Some CR.

(** What may follow the selected lines in the file: nothing, after a last
    line that is not empty, or a line feed and a next line that fits the
    buffer. *)
Definition afterSelection (sel : list bytes) (tail : bytes) : Prop :=
  (tail = [] /\ last sel <> Some []) \/
  (exists tail', tail = LF :: tail' /\ bufio.Scan tail' <> bufio.TooLong).

End server.

(** ** Package [downloader] *)
Module downloader.

Abbreviation error := bytes.

(** The calls an installation makes, in order. *)
Inductive event : Type :=
| EvBackoff (d : Z)                      (* the wait on [time.After(d)] *)
| EvAttempt (attempt : Z)                (* one GET of the download URL *)
| EvMkdirAll (dir : bytes)
| EvCreateTemp
| EvVerifyChecksum (expected : bytes)
| EvExtractArchive
| EvCopyFile
| EvChmod
| EvWritePackageMetadata
| EvSymlinkCurrent
| EvCreateSymlink.

(** A computation that makes calls and may fail: its calls, and its error
    or its value. *)
Definition M (A : Type) : Type := list event * (error + A).

Definition ret {A : Type} (a : A) : M A := ([], inr a).

Definition fail {A : Type} (e : error) : M A := ([], inl e).

Definition bind {A B : Type} (m : M A) (k : A -> M B) : M B :=
  match m with
  | (tr, inl e) => (tr, inl e)
  | (tr, inr a) => let '(tr', r) := k a in (tr ++ tr', r)
  end.

Global Instance M_ret : MRet M := @ret.
Global Instance M_bind : MBind M := fun A B k m => bind m k.

(** A call with the answer [r]; its error is wrapped as [prefix: %w]. *)
Definition call (ev : event) (r : option error) (prefix : bytes) : M unit :=
  match r with
  | None => ([ev], inr tt)
  | Some e => ([ev], inl (prefix ++ e))
  end.

(** [fmt.Errorf(prefix + "%w", err)] around a whole computation. *)
Definition wrap {A : Type} (prefix : bytes) (m : M A) : M A :=
  match m with
  | (tr, inl e) => (tr, inl (prefix ++ e))
  | (tr, inr a) => (tr, inr a)
  end.

Definition Second : Z := 1000000000.

(** How one attempt of [downloadFile] ends. *)
Inductive attemptOutcome : Type :=
| RequestFailed (err : error)            (* [http.NewRequestWithContext] *)
| DoFailed (err : error)                 (* [d.client.Do] *)
| BadStatus (code : Z) (status : bytes)  (* [resp.StatusCode != http.StatusOK] *)
| SeekFailed (err : error)               (* [dest.Seek(0, 0)] *)
| CopyFailed (err : error)               (* [io.Copy] *)
| Downloaded.

(** The world of one installation. *)
Record Env : Type := {
  GOOS : bytes;
  GOARCH : bytes;
  outcome : Z -> attemptOutcome;         (* of attempt 1, 2, 3 *)
  ctxDone : Z -> option error;           (* [ctx.Err()] if the context is done
                                            during the backoff before an attempt *)
  mkdirAll : option error;
  createTemp : option error;
  downloaded : bytes;                    (* the temporary file after the download *)
  extractArchive : option error;
  copyFile : option error;
  chmod : option error }.

Definition maxRetries : Z := 3.

(** [downloadFile] downloads a file with retries.  [remaining] counts the
    rounds of the loop that are left: [maxRetries - attempt + 1]. *)
Fixpoint downloadAttempts (env : Env) (remaining : nat) (attempt : Z) (lastErr : error)
  : M unit :=
  match remaining with
  | O => fail (bs "download failed after " ++ strconv.Itoa maxRetries ++ bs " attempts: " ++ lastErr)
  | S remaining' =>
      (if 1 <? attempt then
         let backoff := attempt * attempt * Second in
         match ctxDone env attempt with
         | Some err => ([EvBackoff backoff], inl err)
         | None => ([EvBackoff backoff], inr tt)
         end
       else ret tt) ;;
      match outcome env attempt with
      | RequestFailed err | DoFailed err | CopyFailed err =>
          ([EvAttempt attempt], inr tt) ;;
          downloadAttempts env remaining' (attempt + 1) err
      | BadStatus code status =>
          ([EvAttempt attempt], inr tt) ;;
          downloadAttempts env remaining' (attempt + 1)
            (bs "HTTP " ++ strconv.Itoa code ++ bs ": " ++ status)
      | SeekFailed err => ([EvAttempt attempt], inl err)
      | Downloaded => ([EvAttempt attempt], inr tt)
      end
  end.

Definition downloadFile (env : Env) : M unit :=
  downloadAttempts env (Z.to_nat maxRetries) 1 [].

(** The attempts and the waits of a run. *)
Definition attempts (tr : list event) : list Z :=
  omap (fun e => match e with EvAttempt n => Some n | _ => None end) tr.

Definition backoffs (tr : list event) : list Z :=
  omap (fun e => match e with EvBackoff d => Some d | _ => None end) tr.

(** Is every wait in [tr] the square, in seconds, of the number of the
    attempt it comes before, [next] being the first attempt to come? *)
Fixpoint paced (next : Z) (tr : list event) : bool :=
  match tr with
  | [] => true
  | EvAttempt n :: tr' => (n =? next) && paced (next + 1) tr'
  | EvBackoff d :: tr' => (d =? next * next * Second) && paced next tr'
  | _ :: tr' => paced next tr'
  end.

(** Does an attempt end in an error the loop retries after? *)
Definition retried (o : attemptOutcome) : option error :=
  match o with
  | RequestFailed err | DoFailed err | CopyFailed err => Some err
  | BadStatus code status => Some (bs "HTTP " ++ strconv.Itoa code ++ bs ": " ++ status)
  | SeekFailed _ | Downloaded => None
  end.

(** [LSPServerMetadata] (the version resolver is left out). *)
Record LSPServerMetadata : Type := {
  Name : bytes;
  Version : bytes;
  BinaryName : bytes;
  DownloadURLs : gmap bytes bytes;
  Checksums : gmap bytes bytes;
  IsArchive : bool;
  ArchivePath : bytes }.

Definition platforms : list bytes :=
  [bs "linux-amd64"; bs "linux-arm64"; bs "darwin-amd64"; bs "darwin-arm64"; bs "windows-amd64"].

(** The [Checksums] literal of every entry of the table: each platform with
    the empty string. *)
Definition noChecksums : list (bytes * bytes) := map (fun p => (p, [])) platforms.

Definition lspMetadataEntries : list (bytes * LSPServerMetadata) :=
  [ (bs "go",
     {| Name := bs "gopls"; Version := bs "v0.21.1"; BinaryName := bs "gopls";
        DownloadURLs := list_to_map
          [ (bs "linux-amd64", bs "https://github.com/golang/tools/releases/download/gopls/{version}/gopls-{version}-linux-amd64.tar.gz");
            (bs "linux-arm64", bs "https://github.com/golang/tools/releases/download/gopls/{version}/gopls-{version}-linux-arm64.tar.gz");
            (bs "darwin-amd64", bs "https://github.com/golang/tools/releases/download/gopls/{version}/gopls-{version}-darwin-amd64.tar.gz");
            (bs "darwin-arm64", bs "https://github.com/golang/tools/releases/download/gopls/{version}/gopls-{version}-darwin-arm64.tar.gz");
            (bs "windows-amd64", bs "https://github.com/golang/tools/releases/download/gopls/{version}/gopls-{version}-windows-amd64.zip") ];
        Checksums := list_to_map noChecksums;
        IsArchive := true; ArchivePath := bs "gopls" |});
    (bs "python",
     {| Name := bs "pyright"; Version := bs "1.1.408"; BinaryName := bs "pyright-langserver";
        DownloadURLs := list_to_map
          (map (fun p => (p, bs "https://registry.npmjs.org/pyright/-/pyright-{version}.tgz")) platforms);
        Checksums := list_to_map noChecksums;
        IsArchive := true; ArchivePath := bs "package/langserver.index.js" |});
    (bs "typescript",
     {| Name := bs "typescript-language-server"; Version := bs "5.1.3";
        BinaryName := bs "typescript-language-server";
        DownloadURLs := list_to_map
          (map (fun p => (p, bs "https://registry.npmjs.org/typescript-language-server/-/typescript-language-server-{version}.tgz")) platforms);
        Checksums := list_to_map noChecksums;
        IsArchive := true; ArchivePath := bs "package/lib/cli.mjs" |});
    (bs "lua",
     {| Name := bs "lua-language-server"; Version := bs "3.17.1";
        BinaryName := bs "lua-language-server";
        DownloadURLs := list_to_map
          [ (bs "linux-amd64", bs "https://github.com/LuaLS/lua-language-server/releases/download/{version}/lua-language-server-{version}-linux-x64.tar.gz");
            (bs "linux-arm64", bs "https://github.com/LuaLS/lua-language-server/releases/download/{version}/lua-language-server-{version}-linux-arm64.tar.gz");
            (bs "darwin-amd64", bs "https://github.com/LuaLS/lua-language-server/releases/download/{version}/lua-language-server-{version}-darwin-x64.tar.gz");
            (bs "darwin-arm64", bs "https://github.com/LuaLS/lua-language-server/releases/download/{version}/lua-language-server-{version}-darwin-arm64.tar.gz");
            (bs "windows-amd64", bs "https://github.com/LuaLS/lua-language-server/releases/download/{version}/lua-language-server-{version}-win32-x64.zip") ];
        Checksums := list_to_map noChecksums;
        IsArchive := true; ArchivePath := bs "bin/lua-language-server" |});
    (bs "zig",
     {| Name := bs "zls"; Version := bs "0.15.1"; BinaryName := bs "zls";
        DownloadURLs := list_to_map
          [ (bs "linux-amd64", bs "https://github.com/zigtools/zls/releases/download/{version}/zls-linux-x86_64-{version}.tar.gz");
            (bs "linux-arm64", bs "https://github.com/zigtools/zls/releases/download/{version}/zls-linux-aarch64-{version}.tar.gz");
            (bs "darwin-amd64", bs "https://github.com/zigtools/zls/releases/download/{version}/zls-macos-x86_64-{version}.tar.gz");
            (bs "darwin-arm64", bs "https://github.com/zigtools/zls/releases/download/{version}/zls-macos-aarch64-{version}.tar.gz");
            (bs "windows-amd64", bs "https://github.com/zigtools/zls/releases/download/{version}/zls-windows-x86_64-{version}.zip") ];
        Checksums := list_to_map noChecksums;
        IsArchive := true; ArchivePath := bs "zls" |}) ].

(** LSP metadata with dynamic version resolution. *)
Definition lspMetadata : gmap bytes LSPServerMetadata := list_to_map lspMetadataEntries.

(** [GetLSPMetadata] returns metadata for a given language's LSP server, with
    the latest version when [resolve] finds it (every entry of the table has
    a resolver) and the fallback otherwise; [None] is its error. *)
Definition GetLSPMetadata (resolve : bytes -> option bytes) (lang : bytes)
  : option LSPServerMetadata :=
  metadata ← lspMetadata !! lang;
  let version := default (Version metadata) (resolve lang) in
  Some {| Name := Name metadata;
          Version := version;
          BinaryName := BinaryName metadata;
          (* Substitute {version} in download URLs *)
          DownloadURLs :=
            (fun urlTemplate => strings.ReplaceAll urlTemplate (bs "{version}") version)
              <$> DownloadURLs metadata;
          Checksums := Checksums metadata;
          IsArchive := IsArchive metadata;
          ArchivePath := ArchivePath metadata |}.

(** [GetPlatformKey] returns the platform identifier for the current system. *)
Definition GetPlatformKey (env : Env) : bytes := GOOS env ++ bs "-" ++ GOARCH env.

(** A Go map read, [m[k]]: the zero value when the key is absent. *)
Definition mapGet (m : gmap bytes bytes) (k : bytes) : bytes := default [] (m !! k).

(** [verifyChecksum] verifies the SHA256 checksum of a file. *)
Definition verifyChecksum (content expectedChecksum : bytes) : option error :=
  let actualChecksum := hex.EncodeToString (sha256.Sum256 content) in
  if decide (actualChecksum = expectedChecksum) then None
  else Some (bs "checksum mismatch: expected " ++ expectedChecksum ++ bs ", got " ++ actualChecksum).

(** [downloadAndInstall] downloads and installs an LSP binary. *)
Definition downloadAndInstall (env : Env) (cacheDir lang : bytes) (metadata : LSPServerMetadata)
  : M unit :=
  let platform := GetPlatformKey env in
  match DownloadURLs metadata !! platform with
  | None => fail (bs "no download URL for platform: " ++ platform)
  | Some downloadURL =>
      (* Create version directory *)
      let versionDir := cacheDir ++ bs "/" ++ lang ++ bs "/" ++ Version metadata in
      call (EvMkdirAll versionDir) (mkdirAll env) (bs "failed to create version dir: ") ;;
      (* Download to temporary file *)
      call EvCreateTemp (createTemp env) (bs "failed to create temp file: ") ;;
      wrap (bs "download failed: ") (downloadFile env) ;;
      (* Verify checksum if provided *)
      (let checksum := mapGet (Checksums metadata) platform in
       if decide (checksum <> [])
       then call (EvVerifyChecksum checksum) (verifyChecksum (downloaded env) checksum)
              (bs "checksum verification failed: ")
       else ret tt) ;;
      (* Extract archive *)
      if IsArchive metadata
      then call EvExtractArchive (extractArchive env) (bs "extraction failed: ")
      else
        (* Direct binary *)
        call EvCopyFile (copyFile env) (bs "failed to copy binary: ") ;;
        call EvChmod (chmod env) (bs "failed to make binary executable: ")
  end.

(** The same installation with the checksum step taken out. *)
Definition installUnchecked (env : Env) (cacheDir lang : bytes) (metadata : LSPServerMetadata)
  : M unit :=
  let platform := GetPlatformKey env in
  match DownloadURLs metadata !! platform with
  | None => fail (bs "no download URL for platform: " ++ platform)
  | Some downloadURL =>
      let versionDir := cacheDir ++ bs "/" ++ lang ++ bs "/" ++ Version metadata in
      call (EvMkdirAll versionDir) (mkdirAll env) (bs "failed to create version dir: ") ;;
      call EvCreateTemp (createTemp env) (bs "failed to create temp file: ") ;;
      wrap (bs "download failed: ") (downloadFile env) ;;
      if IsArchive metadata
      then call EvExtractArchive (extractArchive env) (bs "extraction failed: ")
      else
        call EvCopyFile (copyFile env) (bs "failed to copy binary: ") ;;
        call EvChmod (chmod env) (bs "failed to make binary executable: ")
  end.

Definition verifies (tr : list event) : list bytes :=
  omap (fun e => match e with EvVerifyChecksum c => Some c | _ => None end) tr.

(** A Linux machine on which every attempt meets the given outcome. *)
Definition linuxEnv (o : attemptOutcome) (body : bytes) : Env :=
  {| GOOS := bs "linux"; GOARCH := bs "amd64";
     outcome := fun _ => o; ctxDone := fun _ => None;
     mkdirAll := None; createTemp := None; downloaded := body;
     extractArchive := None; copyFile := None; chmod := None |}.

End downloader.

(** ** Package [pkgmgr]: the installer *)
Module pkgmgr.

Import downloader.

(** Modelled from the spec: [LSPMetadata], whose declaration is not among the
    sources, with the fields [Install] reads. *)
Record LSPMetadata : Type := {
  Version : bytes;
  BinaryName : bytes;
  DownloadURLs : gmap bytes bytes;
  Checksums : gmap bytes bytes;
  IsArchive : bool }.

(** The world of one [Install]: that of the download, and the answers of the
    package manager. *)
Record Env : Type := {
  base : downloader.Env;
  isInstalled : bool;
  writePackageMetadata : option error;
  symlinkCurrent : option error;
  getBinaryPath : option error;
  createSymlink : option error }.

(** [GetPlatformKey] returns the platform key for the current system. *)
Definition GetPlatformKey (env : Env) : bytes :=
  let arch := GOARCH (base env) in
  let arch := if decide (arch = bs "amd64") then bs "x86_64" else arch in
  GOOS (base env) ++ bs "-" ++ arch.

(** [Install] downloads and installs a package.  The [downloadFile] of this
    package is, line for line, that of [downloader]. *)
Definition Install (env : Env) (packagesDir packageName : bytes) (metadata : LSPMetadata)
  : M unit :=
  (* Check if already installed *)
  if isInstalled env then ret tt
  else
    let platform := GetPlatformKey env in
    match DownloadURLs metadata !! platform with
    | None => fail (bs "no download URL for platform: " ++ platform)
    | Some downloadURL =>
        (* Create version directory *)
        let versionDir := packagesDir ++ bs "/" ++ packageName ++ bs "/" ++ Version metadata in
        call (EvMkdirAll versionDir) (mkdirAll (base env))
          (bs "failed to create version directory: ") ;;
        (* Download to temporary file *)
        call EvCreateTemp (createTemp (base env)) (bs "failed to create temp file: ") ;;
        wrap (bs "download failed: ") (downloadFile (base env)) ;;
        (* Verify checksum if provided *)
        (let checksum := mapGet (Checksums metadata) platform in
         if decide (checksum <> [])
         then call (EvVerifyChecksum checksum)
                (verifyChecksum (downloaded (base env)) checksum)
                (bs "checksum verification failed: ")
         else ret tt) ;;
        (* Extract or copy binary *)
        (if IsArchive metadata
         then call EvExtractArchive (extractArchive (base env)) (bs "extraction failed: ")
         else
           call EvCopyFile (copyFile (base env)) (bs "failed to copy binary: ") ;;
           call EvChmod (chmod (base env)) (bs "failed to make binary executable: ")) ;;
        (* Write package metadata *)
        call EvWritePackageMetadata (writePackageMetadata env) (bs "failed to write metadata: ") ;;
        (* Create the current-version symlink *)
        call EvSymlinkCurrent (symlinkCurrent env) (bs "failed to create current version link: ") ;;
        (* Create binary symlink in bin directory *)
        match getBinaryPath env with
        | Some err => fail err
        | None => call EvCreateSymlink (createSymlink env) (bs "failed to create binary symlink: ")
        end
    end.

End pkgmgr.

(** * Properties *)

Section Strings.

Lemma HasPrefix_app (p s : bytes) : strings.HasPrefix (p ++ s) p = true.
Proof.
  induction p as [|c p IH]; simpl; [reflexivity|].
  rewrite Ascii.eqb_refl. exact IH.
Qed.

End Strings.

Example Clean_examples :
  map filepath.Clean
    [bs "/a//b/./c/.."; bs "a/../../b"; bs "/../a/"; bs ""; bs "/"; bs "./"; bs "/home/u/x.go"]
  = [bs "/a/b"; bs "../b"; bs "/a"; bs "."; bs "/"; bs "."; bs "/home/u/x.go"].
Proof. reflexivity. Qed.

Example ReplaceAll_examples :
  map (fun s => strings.ReplaceAll s (bs "{version}") (bs "1.2"))
    [bs "a/{version}/b-{version}.tgz"; bs "{version"; bs ""]
  = [bs "a/1.2/b-1.2.tgz"; bs "{version"; bs ""].
Proof. reflexivity. Qed.

Example TrimSpace_examples :
  map strings.TrimSpace [bs " a b  "; bs ""; [strings.chr 13; strings.chr 10];
                         [strings.chr 194; strings.chr 160; "x"%char; strings.chr 226; strings.chr 128; strings.chr 168]]
  = [bs "a b"; []; []; bs "x"].
Proof. reflexivity. Qed.

Example Sum256_vectors :
  map (fun m => hex.EncodeToString (sha256.Sum256 m))
    [bs ""; bs "abc"; repeat "a"%char 55; repeat "a"%char 56; repeat "a"%char 120]
  = [bs "e3b0c44298fc1c149afbf4c8996fb92427ae41e4649b934ca495991b7852b855";
     bs "ba7816bf8f01cfea414140de5dae2223b00361a396177a9cb410ff61f20015ad";
     bs "9f4390f8d30c2dd92ec9f095b65e2b9ae9b0a925a5258e241c9f1e910f734318";
     bs "b35439a4ac6f0948b6d6f9e3c6af0f5f590ce20f1bde7090ef7970686ec6738a";
     bs "2f3d335432c70b580af0e8e1b3674a7c020d683aa5f73aaaedfdc55af904c21c"].
Proof. vm_compute. reflexivity. Qed.

Example Atoi_examples :
  map strconv.Atoi [bs "42"; bs "+7"; bs "-0"; bs "007"; bs ""; bs "-"; bs "1x"; bs " 1";
                    bs "9223372036854775807"; bs "9223372036854775808"; bs "-9223372036854775808"]
  = [Some 42; Some 7; Some 0; Some 7; None; None; None; None;
     Some 9223372036854775807; None; Some (-9223372036854775808)].
Proof. vm_compute. reflexivity. Qed.

Example Itoa_examples :
  map strconv.Itoa [0; 7; 120; -45; 18446744073709551615]
  = [bs "0"; bs "7"; bs "120"; bs "-45"; bs "18446744073709551615"].
Proof. vm_compute. reflexivity. Qed.

Example ReadMessage_examples :
  map lsp.ReadMessage
    [ bs "Content-Length: 2" ++ CRLF ++ CRLF ++ bs "{}" ++ bs "next";
      bs "Content-Length: 2" ++ [LF] ++ bs "Content-Type: x" ++ [LF; LF] ++ bs "{}";
      bs "Content-Length: 5" ++ CRLF ++ CRLF ++ bs "{}";
      bs "Content-Length: 5" ++ CRLF ++ CRLF;
      bs "Content-Length: -5" ++ CRLF ++ CRLF ++ bs "{}";
      bs "Content-Length: x" ++ CRLF ++ CRLF ++ bs "{}";
      bs "content-length: 2" ++ CRLF ++ CRLF ++ bs "{}";
      bs "Content-Length: 2" ++ CRLF ]
  = [ (lsp.Ok (bs "{}"), bs "next");
      (lsp.Ok (bs "{}"), []);
      (lsp.Err (lsp.BodyReadFailed lsp.ErrUnexpectedEOF), []);
      (lsp.Err (lsp.BodyReadFailed lsp.EOF), []);
      (lsp.Panic, bs "{}");
      (lsp.Err (lsp.InvalidContentLength (bs "x")), CRLF ++ bs "{}");
      (lsp.Err lsp.MissingOrZero, bs "{}");
      (lsp.Err (lsp.ReadErr lsp.EOF), []) ].
Proof. vm_compute. reflexivity. Qed.

Section Framing.


Lemma HasPrefix_cons_single (a c : ascii) (s : bytes) :
  strings.HasPrefix (a :: s) [c] = Ascii.eqb a c.
Proof. simpl. apply andb_true_r. Qed.

Lemma Index_single_app (l rest : bytes) (c : ascii) :
  (c ∉ l) -> strings.Index (l ++ c :: rest) [c] = Some (length l).
Proof.
  induction l as [|a l IH]; intros Hn.
  - simpl. rewrite Ascii.eqb_refl. reflexivity.
  - cbn [app strings.Index]. rewrite HasPrefix_cons_single.
    destruct (Ascii.eqb_spec a c) as [->|Hne].
    + exfalso. apply Hn. left.
    + rewrite IH; [reflexivity|]. intros H. apply Hn. right. exact H.
Qed.

Lemma Index_single_None (l : bytes) (c : ascii) :
  (c ∉ l) -> strings.Index l [c] = None.
Proof.
  induction l as [|a l IH]; intros Hn; [reflexivity|].
  cbn [strings.Index]. rewrite HasPrefix_cons_single.
  destruct (Ascii.eqb_spec a c) as [->|Hne].
  - exfalso. apply Hn. left.
  - rewrite IH; [reflexivity|]. intros H. apply Hn. right. exact H.
Qed.

Lemma Index_single_Some (r : bytes) (c : ascii) (i : nat) :
  strings.Index r [c] = Some i ->
  exists l rest, r = l ++ c :: rest /\ (c ∉ l) /\ length l = i.
Proof.
  revert i. induction r as [|a r IH]; intros i H; [discriminate H|].
  cbn [strings.Index] in H. rewrite HasPrefix_cons_single in H.
  destruct (Ascii.eqb_spec a c) as [->|Hne].
  - injection H as <-. exists [], r. split; [reflexivity|]. split; [|reflexivity].
    apply not_elem_of_nil.
  - destruct (strings.Index r [c]) as [j|] eqn:E; [|discriminate H].
    injection H as <-. destruct (IH j eq_refl) as (l & rest & -> & Hn & Hl).
    exists (a :: l), rest. split; [reflexivity|]. split; [|simpl; lia].
    apply not_elem_of_cons. auto.
Qed.

Lemma ReadString_app (l rest : bytes) (c : ascii) :
  (c ∉ l) -> bufio.ReadString (l ++ c :: rest) c = Some (l ++ [c], rest).
Proof.
  intros Hn. unfold bufio.ReadString. rewrite Index_single_app by exact Hn.
  f_equal. f_equal.
  - replace (l ++ c :: rest) with ((l ++ [c]) ++ rest) by (rewrite <- app_assoc; reflexivity).
    rewrite take_app_length'; [reflexivity|]. rewrite length_app. simpl. lia.
  - replace (l ++ c :: rest) with ((l ++ [c]) ++ rest) by (rewrite <- app_assoc; reflexivity).
    rewrite drop_app_length'; [reflexivity|]. rewrite length_app. simpl. lia.
Qed.

Lemma ReadString_Some (r line r' : bytes) (c : ascii) :
  bufio.ReadString r c = Some (line, r') ->
  exists l, line = l ++ [c] /\ (c ∉ l) /\ r = line ++ r'.
Proof.
  unfold bufio.ReadString. destruct (strings.Index r [c]) as [i|] eqn:E; [|discriminate].
  destruct (Index_single_Some _ _ _ E) as (l & rest & Hr & Hn & Hl).
  intros H. pose proof (ReadString_app l rest c Hn) as H'.
  unfold bufio.ReadString in H'. rewrite <- Hr, E in H'.
  rewrite H in H'. injection H' as -> ->.
  exists l. split; [reflexivity|]. split; [exact Hn|].
  rewrite Hr, <- app_assoc. reflexivity.
Qed.

Lemma ReadString_shorter (r line r' : bytes) (c : ascii) :
  bufio.ReadString r c = Some (line, r') -> (length r' < length r)%nat.
Proof.
  intros H. destruct (ReadString_Some _ _ _ _ H) as (l & -> & _ & ->).
  rewrite !length_app. simpl. lia.
Qed.

Lemma readHeaders_fuel2 (f1 f2 : nat) (cl : Z) (r : bytes) :
  (length r <= f1)%nat -> (length r <= f2)%nat ->
  lsp.readHeaders f1 cl r = lsp.readHeaders f2 cl r.
Proof.
  revert f2 cl r. induction f1 as [|f1 IH]; intros f2 cl r H1 H2.
  - destruct r; [|simpl in H1; lia]. destruct f2; reflexivity.
  - destruct f2 as [|f2].
    { destruct r; [|simpl in H2; lia]. reflexivity. }
    cbn [lsp.readHeaders].
    destruct (bufio.ReadString r LF) as [[line r']|] eqn:E; [|reflexivity].
    pose proof (ReadString_shorter _ _ _ _ E) as Hs.
    destruct (strings.TrimSpace line); [reflexivity|].
    destruct (lsp.contentLengthValue _) as [v|].
    + destruct (strconv.Atoi v); [|reflexivity]. apply IH; lia.
    + apply IH; lia.
Qed.

Lemma readHeaders_fuel (f : nat) (cl : Z) (r : bytes) :
  (length r <= f)%nat -> lsp.readHeaders f cl r = lsp.readHeaders (length r) cl r.
Proof. intros H. apply readHeaders_fuel2; lia. Qed.


Lemma parseDigits_app (l1 l2 : bytes) (n : Z) :
  strconv.parseDigits (l1 ++ l2) n = strconv.parseDigits l1 n ≫= strconv.parseDigits l2.
Proof.
  revert n. induction l1 as [|c l1 IH]; intros n; [reflexivity|].
  simpl. destruct (strconv.isDigit c); [apply IH|reflexivity].
Qed.

Lemma formatBits_acc (f : nat) (u : Z) (acc : bytes) :
  strconv.formatBits f u acc = strconv.formatBits f u [] ++ acc.
Proof.
  revert u acc. induction f as [|f IH]; intros u acc; [reflexivity|].
  simpl. destruct (u <? 10); [reflexivity|].
  rewrite (IH _ (_ :: acc)), (IH _ [_]), <- app_assoc. reflexivity.
Qed.

Lemma digitChar_spec (d : Z) :
  0 <= d < 10 ->
  strconv.isDigit (strconv.digitChar d) = true /\
  strconv.digitVal (strconv.digitChar d) = d.
Proof.
  intros H.
  assert (d = 0 \/ d = 1 \/ d = 2 \/ d = 3 \/ d = 4 \/ d = 5 \/ d = 6 \/ d = 7 \/ d = 8 \/ d = 9) as Hd by lia.
  repeat (destruct Hd as [->|Hd]); try subst d; split; reflexivity.
Qed.

Lemma formatBits_digits (f : nat) (u : Z) :
  0 <= u -> Forall (fun c => strconv.isDigit c = true) (strconv.formatBits f u []).
Proof.
  revert u. induction f as [|f IH]; intros u Hu; [constructor|].
  simpl. assert (Hm : 0 <= u mod 10 < 10) by (apply Z.mod_pos_bound; lia).
  destruct (u <? 10).
  - constructor; [apply digitChar_spec, Hm|constructor].
  - rewrite formatBits_acc. apply Forall_app. split.
    + apply IH. apply Z.div_pos; lia.
    + constructor; [apply digitChar_spec, Hm|constructor].
Qed.

Lemma formatBits_nonempty (f : nat) (u : Z) (acc : bytes) :
  strconv.formatBits (S f) u acc <> [].
Proof.
  simpl. destruct (u <? 10); [discriminate|].
  rewrite formatBits_acc. destruct (strconv.formatBits f _ []); discriminate.
Qed.

Lemma parseDigits_formatBits (f : nat) (u : Z) :
  0 <= u < 10 ^ Z.of_nat f ->
  strconv.parseDigits (strconv.formatBits f u []) 0 = Some u.
Proof.
  revert u. induction f as [|f IH]; intros u Hu.
  - simpl in *. f_equal. lia.
  - cbn [strconv.formatBits].
    assert (Hm : 0 <= u mod 10 < 10) by (apply Z.mod_pos_bound; lia).
    destruct (digitChar_spec _ Hm) as [Hd Hv].
    destruct (Z.ltb_spec u 10) as [Hlt|Hge].
    + simpl. rewrite Hd, Hv. f_equal. rewrite Z.mod_small; lia.
    + rewrite formatBits_acc, parseDigits_app, IH.
      * simpl. rewrite Hd, Hv. f_equal.
        pose proof (Z.div_mod u 10). lia.
      * split; [apply Z.div_pos; lia|].
        apply Z.div_lt_upper_bound; [lia|].
        rewrite Nat2Z.inj_succ, Z.pow_succ_r in Hu; lia.
Qed.

Lemma Itoa_digits (n : Z) :
  0 <= n -> strconv.Itoa n <> [] /\ Forall (fun c => strconv.isDigit c = true) (strconv.Itoa n).
Proof.
  intros Hn. unfold strconv.Itoa. destruct (Z.ltb_spec n 0); [lia|].
  split; [apply formatBits_nonempty|apply formatBits_digits, Hn].
Qed.

Lemma Atoi_digits (ds : bytes) (n : Z) :
  ds <> [] -> Forall (fun c => strconv.isDigit c = true) ds ->
  strconv.parseDigits ds 0 = Some n -> 0 <= n < 2^63 ->
  strconv.Atoi ds = Some n.
Proof.
  intros Hne Hds Hp Hn. destruct ds as [|c t]; [contradiction|].
  unfold strconv.Atoi.
  assert (Hc : strconv.isDigit c = true) by (inversion Hds; assumption).
  destruct (Ascii.eqb_spec c "-") as [->|_]; [discriminate Hc|].
  destruct (Ascii.eqb_spec c "+") as [->|_]; [discriminate Hc|].
  rewrite Hp. simpl.
  destruct (Z.leb_spec (- 2^63) n); [|lia].
  destruct (Z.leb_spec n (2^63 - 1)); [|lia]. reflexivity.
Qed.

Lemma Atoi_Itoa (n : Z) : 0 <= n < 2^63 -> strconv.Atoi (strconv.Itoa n) = Some n.
Proof.
  intros Hn. destruct (Itoa_digits n) as [Hne Hds]; [lia|].
  apply Atoi_digits; auto.
  unfold strconv.Itoa. destruct (Z.ltb_spec n 0); [lia|].
  apply parseDigits_formatBits. change (Z.of_nat 20) with 20. lia.
Qed.



Lemma TrimLeftSpace_None (f : nat) (s : bytes) :
  strings.leadingSpace strings.spaceRunes s = None -> strings.TrimLeftSpace f s = s.
Proof. intros H. destruct f; simpl; [|rewrite H]; reflexivity. Qed.

Lemma TrimRightSpaceRev_None (f : nat) (s : bytes) :
  strings.leadingSpace (map (@rev ascii) strings.spaceRunes) s = None ->
  strings.TrimRightSpaceRev f s = s.
Proof.
  intros H. destruct f; [reflexivity|].
  cbn [strings.TrimRightSpaceRev]. rewrite H. reflexivity.
Qed.

Lemma TrimRightSpaceRev_Some (f w : nat) (s : bytes) :
  strings.leadingSpace (map (@rev ascii) strings.spaceRunes) s = Some w ->
  strings.TrimRightSpaceRev (S f) s = strings.TrimRightSpaceRev f (drop w s).
Proof. intros H. cbn [strings.TrimRightSpaceRev]. rewrite H. reflexivity. Qed.

Lemma digit_not_space (c : ascii) (t : bytes) :
  strconv.isDigit c = true ->
  strings.leadingSpace (map (@rev ascii) strings.spaceRunes) (c :: t) = None.
Proof.
  destruct c as [[] [] [] [] [] [] [] []]; intros H; try discriminate H; reflexivity.
Qed.


Lemma TrimSpace_header (ds : bytes) :
  ds <> [] -> Forall (fun c => strconv.isDigit c = true) ds ->
  strings.TrimSpace (lsp.hdr ++ ds ++ CRLF) = lsp.hdr ++ ds.
Proof.
  intros Hne Hds. unfold strings.TrimSpace.
  rewrite TrimLeftSpace_None by reflexivity.
  rewrite !rev_app_distr.
  destruct (rev ds) as [|d t] eqn:Er.
  { apply (f_equal (@rev ascii)) in Er. rewrite rev_involutive in Er. contradiction. }
  assert (Hd : strconv.isDigit d = true).
  { apply (Forall_rev) in Hds. rewrite Er in Hds. inversion Hds; assumption. }
  remember (length (lsp.hdr ++ ds ++ CRLF)) as n eqn:En.
  assert (3 <= n)%nat by (subst n; rewrite length_app; simpl; lia).
  destruct n as [|[|[|n]]]; try lia.
  change (rev CRLF ++ (d :: t) ++ rev lsp.hdr) with (LF :: CR :: d :: t ++ rev lsp.hdr).
  rewrite (TrimRightSpaceRev_Some _ 1) by reflexivity.
  rewrite (TrimRightSpaceRev_Some _ 1) by reflexivity.
  cbn [drop].
  rewrite TrimRightSpaceRev_None by (apply digit_not_space, Hd).
  change (d :: t ++ rev lsp.hdr) with ((d :: t) ++ rev lsp.hdr).
  rewrite <- Er.
  change (drop 1 (drop 1 ((rev CRLF ++ rev ds) ++ rev lsp.hdr))) with (rev ds ++ rev lsp.hdr).
  rewrite <- rev_app_distr, rev_involutive. reflexivity.
Qed.

Lemma contentLengthValue_header (ds : bytes) :
  lsp.contentLengthValue (lsp.hdr ++ ds) = Some ds.
Proof.
  unfold lsp.contentLengthValue.
  change (strings.SplitN (lsp.hdr ++ ds) (bs ": ") 2) with [bs "Content-Length"; ds].
  destruct (decide (bs "Content-Length" = bs "Content-Length")); [reflexivity|contradiction].
Qed.

Lemma digits_no_LF (ds : bytes) :
  Forall (fun c => strconv.isDigit c = true) ds -> LF ∉ ds.
Proof.
  intros H Hin. rewrite Forall_forall in H. 
  apply H in Hin. discriminate Hin.
Qed.

Lemma ReadFull_app (body rest : bytes) :
  lsp.ReadFull (body ++ rest) (length body) = (lsp.Ok body, rest).
Proof.
  unfold lsp.ReadFull. rewrite length_app.
  destruct (Nat.ltb_spec (length body + length rest) (length body)); [lia|].
  rewrite take_app_length, drop_app_length. reflexivity.
Qed.

Lemma readHeaders_frame (f : nat) (ds rest : bytes) (n cl : Z) :
  ds <> [] -> Forall (fun c => strconv.isDigit c = true) ds ->
  strconv.Atoi ds = Some n ->
  lsp.readHeaders (S (S f)) cl (lsp.hdr ++ ds ++ CRLF ++ CRLF ++ rest) = (lsp.Ok n, rest).
Proof.
  intros Hne Hds Ha.
  cbn [lsp.readHeaders].
  replace (lsp.hdr ++ ds ++ CRLF ++ CRLF ++ rest)
    with ((lsp.hdr ++ ds ++ [CR]) ++ LF :: CRLF ++ rest)
    by (rewrite <- !app_assoc; reflexivity).
  rewrite ReadString_app.
  2:{ intros Hin. apply elem_of_app in Hin as [Hin|Hin].
      - vm_compute in Hin. repeat (apply elem_of_cons in Hin as [Hin|Hin]; [discriminate Hin|]).
        inversion Hin.
      - apply elem_of_app in Hin as [Hin|Hin]; [exact (digits_no_LF _ Hds Hin)|].
        apply elem_of_cons in Hin as [Hin|Hin]; [discriminate Hin|inversion Hin]. }
  replace ((lsp.hdr ++ ds ++ [CR]) ++ [LF]) with (lsp.hdr ++ ds ++ CRLF)
    by (rewrite <- !app_assoc; reflexivity).
  rewrite TrimSpace_header by assumption.
  rewrite contentLengthValue_header, Ha.
  destruct (lsp.hdr ++ ds) eqn:E; [discriminate E|].
  change (CRLF ++ rest) with ([CR] ++ LF :: rest).
  rewrite ReadString_app.
  2:{ intros Hin. apply elem_of_cons in Hin as [Hin|Hin]; [discriminate Hin|inversion Hin]. }
  reflexivity.
Qed.

Lemma ReadMessage_frame (body rest : bytes) :
  body <> [] -> Z.of_nat (length body) <= lsp.maxAlloc ->
  lsp.ReadMessage (lsp.frame body ++ rest) = (lsp.Ok body, rest).
Proof.
  intros Hne Hlen. unfold lsp.ReadMessage, lsp.frame.
  remember (Z.of_nat (length body)) as n eqn:En.
  assert (Hn : 0 < n) by (destruct body; [contradiction|]; subst n; simpl; lia).
  assert (Hmax : lsp.maxAlloc = 281474976710656) by reflexivity.
  destruct (Itoa_digits n) as [Hds1 Hds2]; [lia|].
  rewrite <- !app_assoc.
  match goal with |- context [lsp.readHeaders ?F _ _] =>
    assert (HF : (2 <= F)%nat) by (rewrite length_app; simpl; lia);
    destruct F as [|[|f]]; [lia..|] end.
  rewrite readHeaders_frame with (n := n); auto.
  2:{ apply Atoi_Itoa. change (2^63) with 9223372036854775808. lia. }
  destruct (Z.eqb_spec n 0); [lia|].
  destruct (Z.ltb_spec n 0); [lia|].
  destruct (Z.ltb_spec lsp.maxAlloc n); [lia|]. simpl.
  subst n. rewrite Nat2Z.id. apply ReadFull_app.
Qed.



Section Roundtrip.

Context {V : Type} (Marshal : V -> option bytes).

(** Every JSON text has at least one byte, and fits in memory. *)
Hypothesis Marshal_json : forall v body,
  Marshal v = Some body -> body <> [] /\ Z.of_nat (length body) <= lsp.maxAlloc.

Lemma WriteMessage_ok (w : lsp.Writer) (v : V) (body : bytes) :
  lsp.closed w = false -> Marshal v = Some body ->
  lsp.WriteMessage Marshal w v
  = (None, {| lsp.written := lsp.written w ++ lsp.frame body; lsp.closed := false |}).
Proof.
  intros Hw Hm. unfold lsp.WriteMessage, lsp.Write. rewrite Hm, Hw.
  cbn [lsp.written lsp.closed]. unfold lsp.frame, lsp.hdr. rewrite <- !app_assoc. reflexivity.
Qed.

Lemma WriteMessages_ok (vs : list V) (bodies : list bytes) :
  Forall2 (fun v body => Marshal v = Some body) vs bodies ->
  forall w, lsp.closed w = false ->
  lsp.WriteMessages Marshal w vs
  = (None, {| lsp.written := lsp.written w ++ concat (map lsp.frame bodies); lsp.closed := false |}).
Proof.
  induction 1 as [|v body vs bodies Hv _ IH]; intros w Hw.
  - simpl. rewrite app_nil_r. destruct w; simpl in *; subst; reflexivity.
  - cbn [lsp.WriteMessages]. rewrite (WriteMessage_ok w v body Hw Hv).
    rewrite IH by reflexivity. cbn [lsp.written map concat].
    rewrite <- app_assoc. reflexivity.
Qed.

Lemma ReadMessages_frames (bodies : list bytes) (rest : bytes) :
  Forall (fun body => body <> [] /\ Z.of_nat (length body) <= lsp.maxAlloc) bodies ->
  lsp.ReadMessages (length bodies) (concat (map lsp.frame bodies) ++ rest)
  = (map lsp.Ok bodies, rest).
Proof.
  induction 1 as [|body bodies [Hne Hlen] _ IH]; [reflexivity|].
  cbn [length map concat lsp.ReadMessages]. rewrite <- app_assoc.
  rewrite ReadMessage_frame by assumption. rewrite IH. reflexivity.
Qed.

Lemma mapM_Marshal_json (vs : list V) (bodies : list bytes) :
  mapM Marshal vs = Some bodies ->
  Forall (fun body => body <> [] /\ Z.of_nat (length body) <= lsp.maxAlloc) bodies.
Proof.
  intros Hm. apply mapM_Some in Hm. induction Hm; constructor; eauto.
Qed.

(** C2. A message written by [WriteMessage] to a fresh stream is read back by
    [ReadMessage] as exactly the bytes [json.Marshal] produced, with nothing
    left over; and after any sequence of values is written in order, as many
    calls of [ReadMessage] return their serializations in that order. *)
Theorem framing_roundtrip :
  (forall v body, Marshal v = Some body ->
     exists w', lsp.WriteMessage Marshal lsp.newWriter v = (None, w') /\
                lsp.ReadMessage (lsp.written w') = (lsp.Ok body, [])) /\
  (forall vs bodies, mapM Marshal vs = Some bodies ->
     exists w', lsp.WriteMessages Marshal lsp.newWriter vs = (None, w') /\
                lsp.ReadMessages (length vs) (lsp.written w') = (map lsp.Ok bodies, [])).
Proof.
  split.
  - intros v body Hm. eexists. split; [apply WriteMessage_ok; [reflexivity|exact Hm]|].
    simpl. destruct (Marshal_json _ _ Hm).
    rewrite <- (app_nil_r (lsp.frame body)). apply ReadMessage_frame; assumption.
  - intros vs bodies Hm. eexists. split; [apply WriteMessages_ok with (bodies := bodies); [apply mapM_Some, Hm|reflexivity]|].
    simpl. rewrite <- (app_nil_r (concat _)).
    replace (length vs) with (length bodies).
    + apply ReadMessages_frames. eapply mapM_Marshal_json, Hm.
    + symmetry. eapply length_mapM. exact Hm.
Qed.

End Roundtrip.

Lemma marshalBool_json (v : bool) (body : bytes) :
  lsp.marshalBool v = Some body -> body <> [] /\ Z.of_nat (length body) <= lsp.maxAlloc.
Proof.
  destruct v; intros [= <-]; (split; [discriminate | vm_compute; discriminate]).
Qed.

Lemma framing_roundtrip_witness :
  exists w', lsp.WriteMessages lsp.marshalBool lsp.newWriter [true; false; true] = (None, w') /\
             lsp.ReadMessages 3 (lsp.written w')
             = ([lsp.Ok (bs "true"); lsp.Ok (bs "false"); lsp.Ok (bs "true")], []).
Proof.
  exact (proj2 (framing_roundtrip lsp.marshalBool marshalBool_json)
           [true; false; true] [bs "true"; bs "false"; bs "true"] eq_refl).
Defined.

End Framing.

Section Fuel.

(** A white-space rune is at least one byte wide, and no wider than what is
    left. *)
Lemma leadingSpace_width (runes : list bytes) (s : bytes) (w : nat) :
  Forall (fun p => p <> []) runes ->
  strings.leadingSpace runes s = Some w -> (1 <= w <= length s)%nat.
Proof.
  unfold strings.leadingSpace. intros Hne H.
  destruct (find (strings.HasPrefix s) runes) as [p|] eqn:E; [|discriminate H].
  injection H as <-. apply find_some in E as [Hin Hp].
  rewrite Forall_forall in Hne. apply list_elem_of_In in Hin. specialize (Hne p Hin).
  split; [destruct p; [contradiction|simpl; lia]|].
  clear -Hp. revert s Hp. induction p as [|c p IH]; intros s Hp; [simpl; lia|].
  destruct s as [|a s]; [discriminate Hp|]. simpl in Hp.
  apply andb_prop in Hp as [_ Hp]. specialize (IH s Hp). simpl. lia.
Qed.

Lemma spaceRunes_nonempty : Forall (fun p : bytes => p <> []) strings.spaceRunes.
Proof. repeat (apply Forall_cons_2; [discriminate|]). apply Forall_nil_2. Qed.

Lemma spaceRunes_rev_nonempty :
  Forall (fun p : bytes => p <> []) (map (@rev ascii) strings.spaceRunes).
Proof. repeat (apply Forall_cons_2; [discriminate|]). apply Forall_nil_2. Qed.

(** [length s] rounds are enough to strip the leading white space: what is
    left starts with none. *)
Lemma TrimLeftSpace_done (f : nat) : forall s : bytes,
  (length s <= f)%nat ->
  strings.leadingSpace strings.spaceRunes (strings.TrimLeftSpace f s) = None \/
  strings.TrimLeftSpace f s = [].
Proof.
  induction f as [|f IH]; intros s Hf.
  - right. destruct s; [reflexivity|simpl in Hf; lia].
  - cbn [strings.TrimLeftSpace].
    destruct (strings.leadingSpace strings.spaceRunes s) as [w|] eqn:E; [|left; exact E].
    apply leadingSpace_width in E; [|exact spaceRunes_nonempty].
    apply IH. rewrite length_drop. lia.
Qed.

Lemma TrimRightSpaceRev_done (f : nat) : forall r : bytes,
  (length r <= f)%nat ->
  strings.leadingSpace (map (@rev ascii) strings.spaceRunes) (strings.TrimRightSpaceRev f r) = None \/
  strings.TrimRightSpaceRev f r = [].
Proof.
  induction f as [|f IH]; intros s Hf.
  - right. destruct s; [reflexivity|simpl in Hf; lia].
  - cbn [strings.TrimRightSpaceRev].
    destruct (strings.leadingSpace _ s) as [w|] eqn:E; [|left; exact E].
    apply leadingSpace_width in E; [|exact spaceRunes_rev_nonempty].
    apply IH. rewrite length_drop. lia.
Qed.

Lemma Index_head_not_sep (c : ascii) (rest : bytes) :
  filepath.IsPathSeparator c = false ->
  (1 <= default (length (c :: rest)) (strings.Index (c :: rest) [filepath.Separator])
     <= length (c :: rest))%nat.
Proof.
  intros Hc. destruct (strings.Index (c :: rest) [filepath.Separator]) as [i|] eqn:E.
  - apply Index_single_Some in E as (l & r & E & Hn & <-).
    destruct l as [|a l].
    + injection E as -> _. unfold filepath.IsPathSeparator in Hc.
      rewrite Ascii.eqb_refl in Hc. discriminate Hc.
    + rewrite E. cbn [default]. rewrite length_app. simpl. lia.
  - simpl. lia.
Qed.

(** Every round of the loop of [Clean] takes at least one byte, so
    [length path] rounds are enough: more fuel changes nothing. *)
Lemma cleanLoop_fuel (f1 : nat) : forall (f2 : nat) (rooted : bool) (path out : bytes) (dotdot : nat),
  (length path <= f1)%nat -> (length path <= f2)%nat ->
  filepath.cleanLoop f1 rooted path out dotdot = filepath.cleanLoop f2 rooted path out dotdot.
Proof.
  induction f1 as [|f1 IH]; intros f2 rooted path out dotdot H1 H2.
  - destruct path; [|simpl in H1; lia]. destruct f2; reflexivity.
  - destruct f2 as [|f2]; [destruct path; [reflexivity|simpl in H2; lia]|].
    destruct path as [|c rest]; [reflexivity|].
    cbn [filepath.cleanLoop]. simpl in H1, H2.
    assert (Hd : (length (drop 1 rest) <= length rest)%nat) by (rewrite length_drop; lia).
    destruct (filepath.IsPathSeparator c) eqn:Hc; [apply IH; lia|].
    destruct (Ascii.eqb c "." && filepath.elemEnds rest); [apply IH; lia|].
    destruct (Ascii.eqb c "." && strings.HasPrefix rest (bs ".") && filepath.elemEnds (drop 1 rest)).
    + destruct (dotdot <? length out)%nat; [apply IH; lia|].
      destruct (negb rooted); apply IH; lia.
    + pose proof (Index_head_not_sep c rest Hc) as Hn.
      apply IH; rewrite length_drop; simpl in Hn |- *; lia.
Qed.

End Fuel.

Section FramingErrors.

(** What the header loop returns, in terms of the lines it meets. *)
Lemma readHeaders_spec (f : nat) : forall (cl : Z) (r : bytes),
  match lsp.readHeaders f cl r with
  | (lsp.Ok n, r') =>
      lsp.afterHeaders f r = Some r' /\
      n = lsp.lastLength cl (lsp.headerLines f r) /\
      Forall (fun l => lsp.declaredLength l <> Some None) (lsp.headerLines f r)
  | (lsp.Err (lsp.ReadErr lsp.EOF), _) =>
      lsp.afterHeaders f r = None /\
      Forall (fun l => lsp.declaredLength l <> Some None) (lsp.headerLines f r)
  | (lsp.Err (lsp.InvalidContentLength _), _) =>
      Exists (fun l => lsp.declaredLength l = Some None) (lsp.headerLines f r)
  | _ => False
  end.
Proof.
  induction f as [|f IH]; intros cl r.
  - simpl. split; constructor.
  - cbn [lsp.readHeaders lsp.afterHeaders lsp.headerLines].
    destruct (bufio.ReadString r LF) as [[line r']|]; [|split; constructor].
    unfold lsp.lastLength.
    destruct (strings.TrimSpace line) as [|c t] eqn:Et.
    { split; [reflexivity|]. split; [reflexivity|constructor]. }
    cbn [fold_left].
    assert (HD : lsp.declaredLength line = strconv.Atoi <$> lsp.contentLengthValue (c :: t))
      by (unfold lsp.declaredLength; rewrite Et; reflexivity).
    destruct (lsp.contentLengthValue (c :: t)) as [v|]; cbn in HD.
    + destruct (strconv.Atoi v) as [n|].
      * rewrite HD. specialize (IH n r'). fold (lsp.lastLength n (lsp.headerLines f r')).
        destruct (lsp.readHeaders f n r') as [[m|[[]| | | | |]|] r'']; try contradiction.
        -- destruct IH as (? & ? & ?). repeat split; auto.
           constructor; [rewrite HD; discriminate|assumption].
        -- destruct IH as (? & ?). split; auto.
           constructor; [rewrite HD; discriminate|assumption].
        -- apply Exists_cons_tl. exact IH.
      * apply Exists_cons_hd. exact HD.
    + rewrite HD. specialize (IH cl r'). fold (lsp.lastLength cl (lsp.headerLines f r')).
      destruct (lsp.readHeaders f cl r') as [[m|[[]| | | | |]|] r'']; try contradiction.
      * destruct IH as (? & ? & ?). repeat split; auto.
        constructor; [rewrite HD; discriminate|assumption].
      * destruct IH as (? & ?). split; auto.
        constructor; [rewrite HD; discriminate|assumption].
      * apply Exists_cons_tl. exact IH.
Qed.


Lemma ReadMessage_cases (r : bytes) :
  let hs := lsp.headerLines (length r) r in
  match lsp.ReadMessage r with
  | (lsp.Ok body, r') =>
      exists rest, lsp.afterHeaders (length r) r = Some rest /\
        0 < lsp.lastLength 0 hs <= lsp.maxAlloc /\
        (Z.to_nat (lsp.lastLength 0 hs) <= length rest)%nat /\
        body = take (Z.to_nat (lsp.lastLength 0 hs)) rest /\
        r' = drop (Z.to_nat (lsp.lastLength 0 hs)) rest /\
        Forall (fun l => lsp.declaredLength l <> Some None) hs
  | (lsp.Err (lsp.ReadErr e), _) =>
      e = lsp.EOF /\ lsp.afterHeaders (length r) r = None /\
      Forall (fun l => lsp.declaredLength l <> Some None) hs
  | (lsp.Err (lsp.InvalidContentLength _), _) =>
      Exists (fun l => lsp.declaredLength l = Some None) hs
  | (lsp.Err lsp.MissingOrZero, _) =>
      is_Some (lsp.afterHeaders (length r) r) /\ lsp.lastLength 0 hs = 0 /\
      Forall (fun l => lsp.declaredLength l <> Some None) hs
  | (lsp.Err (lsp.BodyReadFailed _), _) =>
      exists rest, lsp.afterHeaders (length r) r = Some rest /\
        0 < lsp.lastLength 0 hs <= lsp.maxAlloc /\
        (length rest < Z.to_nat (lsp.lastLength 0 hs))%nat /\
        Forall (fun l => lsp.declaredLength l <> Some None) hs
  | (lsp.Err _, _) => False
  | (lsp.Panic, _) =>
      is_Some (lsp.afterHeaders (length r) r) /\
      (lsp.lastLength 0 hs < 0 \/ lsp.maxAlloc < lsp.lastLength 0 hs) /\
      Forall (fun l => lsp.declaredLength l <> Some None) hs
  end.
Proof.
  intros hs. subst hs. unfold lsp.ReadMessage.
  pose proof (readHeaders_spec (length r) 0 r) as H.
  destruct (lsp.readHeaders (length r) 0 r) as [[n|[[]| | | | |]|] r']; try contradiction.
  - destruct H as (Ha & Hn & Hf). rewrite <- Hn.
    destruct (Z.eqb_spec n 0) as [->|Hn0]; [split; [eexists; eauto|split; auto]|].
    destruct (Z.ltb_spec n 0); [split; [eauto|split; [left; lia|exact Hf]]|].
    destruct (Z.ltb_spec lsp.maxAlloc n); [split; [eauto|split; [right; lia|exact Hf]]|].
    cbn [orb]. unfold lsp.ReadFull.
    destruct (Nat.ltb_spec (length r') (Z.to_nat n)).
    + exists r'. repeat split; auto; lia.
    + exists r'. repeat split; auto; lia.
  - destruct H as (Ha & Hf). auto.
  - exact H.
Qed.


Lemma maxAlloc_pos : 0 < lsp.maxAlloc.
Proof. reflexivity. Qed.

Lemma Forall_Exists_invalid (hs : list bytes) :
  Forall (fun l => lsp.declaredLength l <> Some None) hs ->
  Exists (fun l => lsp.declaredLength l = Some None) hs -> False.
Proof.
  intros Hf He. apply Exists_exists in He as (l & Hin & Hl).
  rewrite Forall_forall in Hf. exact (Hf l Hin Hl).
Qed.

Lemma lastLength_absent (hs : list bytes) (cl : Z) :
  Forall (fun l => lsp.declaredLength l = None) hs -> lsp.lastLength cl hs = cl.
Proof.
  unfold lsp.lastLength. induction 1 as [|l hs Hl _ IH]; [reflexivity|].
  simpl. rewrite Hl. exact IH.
Qed.

Lemma ReadMessage_zero (r : bytes) :
  lsp.lastLength 0 (lsp.headerLines (length r) r) = 0 ->
  exists e r', lsp.ReadMessage r = (lsp.Err e, r').
Proof.
  intros Hz. pose proof (ReadMessage_cases r) as H. cbn zeta in H.
  pose proof maxAlloc_pos.
  destruct (lsp.ReadMessage r) as [[body|e|] r'].
  - destruct H as (rest & _ & Hn & _). lia.
  - eauto.
  - destruct H as (_ & [Hn|Hn] & _); lia.
Qed.

Lemma ReadMessage_invalid (r : bytes) :
  Exists (fun l => lsp.declaredLength l = Some None) (lsp.headerLines (length r) r) ->
  exists v r', lsp.ReadMessage r = (lsp.Err (lsp.InvalidContentLength v), r').
Proof.
  intros He. pose proof (ReadMessage_cases r) as H. cbn zeta in H.
  destruct (lsp.ReadMessage r) as [[body|[e|v| |e| |e]|] r']; try contradiction.
  - destruct H as (rest & _ & _ & _ & _ & _ & Hf). destruct (Forall_Exists_invalid _ Hf He).
  - destruct H as (_ & _ & Hf). destruct (Forall_Exists_invalid _ Hf He).
  - eauto.
  - destruct H as (_ & _ & Hf). destruct (Forall_Exists_invalid _ Hf He).
  - destruct H as (rest & _ & _ & _ & Hf). destruct (Forall_Exists_invalid _ Hf He).
  - destruct H as (_ & _ & Hf). destruct (Forall_Exists_invalid _ Hf He).
Qed.

Lemma ReadMessage_unterminated (r : bytes) :
  lsp.afterHeaders (length r) r = None ->
  exists e r', lsp.ReadMessage r = (lsp.Err e, r').
Proof.
  intros Hn. pose proof (ReadMessage_cases r) as H. cbn zeta in H.
  destruct (lsp.ReadMessage r) as [[body|e|] r'].
  - destruct H as (rest & Ha & _). congruence.
  - eauto.
  - destruct H as ([rest Ha] & _). congruence.
Qed.

Lemma ReadMessage_short_body (r rest : bytes) :
  lsp.afterHeaders (length r) r = Some rest ->
  Forall (fun l => lsp.declaredLength l <> Some None) (lsp.headerLines (length r) r) ->
  0 < lsp.lastLength 0 (lsp.headerLines (length r) r) <= lsp.maxAlloc ->
  Z.of_nat (length rest) < lsp.lastLength 0 (lsp.headerLines (length r) r) ->
  exists e, lsp.ReadMessage r = (lsp.Err (lsp.BodyReadFailed e), []).
Proof.
  intros Ha Hf Hn Hs. unfold lsp.ReadMessage.
  pose proof (readHeaders_spec (length r) 0 r) as H.
  destruct (lsp.readHeaders (length r) 0 r) as [[n|[[]| | | | |]|] r'']; try contradiction.
  - destruct H as (Ha' & -> & _). rewrite Ha in Ha'. injection Ha' as <-.
    destruct (Z.eqb_spec (lsp.lastLength 0 (lsp.headerLines (length r) r)) 0); [lia|].
    destruct (Z.ltb_spec (lsp.lastLength 0 (lsp.headerLines (length r) r)) 0); [lia|].
    destruct (Z.ltb_spec lsp.maxAlloc (lsp.lastLength 0 (lsp.headerLines (length r) r))); [lia|].
    cbn [orb]. unfold lsp.ReadFull.
    destruct (Nat.ltb_spec (length rest) (Z.to_nat (lsp.lastLength 0 (lsp.headerLines (length r) r)))); [|lia].
    eauto.
  - destruct H as (Ha' & _). congruence.
  - destruct (Forall_Exists_invalid _ Hf H).
Qed.


Lemma readHeaders_other (f : nat) (cl : Z) (h rest : bytes) :
  lsp.otherHeader h = true ->
  lsp.readHeaders (S f) cl (h ++ CRLF ++ rest) = lsp.readHeaders f cl rest.
Proof.
  unfold lsp.otherHeader. intros H.
  apply andb_prop in H as [H H3]. apply andb_prop in H as [H1 H2].
  apply bool_decide_eq_true in H1, H2, H3.
  cbn [lsp.readHeaders].
  replace (h ++ CRLF ++ rest) with ((h ++ [CR]) ++ LF :: rest)
    by (rewrite <- app_assoc; reflexivity).
  rewrite ReadString_app.
  2:{ intros Hin. apply elem_of_app in Hin as [Hin|Hin]; [exact (H1 Hin)|].
      apply elem_of_cons in Hin as [Hin|Hin]; [discriminate Hin|inversion Hin]. }
  replace ((h ++ [CR]) ++ [LF]) with (h ++ CRLF) by (rewrite <- app_assoc; reflexivity).
  unfold lsp.declaredLength in H3.
  destruct (strings.TrimSpace (h ++ CRLF)) as [|c t]; [contradiction|].
  destruct (lsp.contentLengthValue (c :: t)); [discriminate H3|reflexivity].
Qed.

Lemma readHeaders_block (hs : list bytes) (f : nat) (cl : Z) (rest : bytes) :
  Forall (fun h => lsp.otherHeader h = true) hs ->
  lsp.readHeaders (length hs + f) cl (lsp.headerBlock hs ++ rest)
  = lsp.readHeaders f cl rest.
Proof.
  induction 1 as [|h hs Hh _ IH]; [reflexivity|].
  unfold lsp.headerBlock in *. cbn [length map concat Nat.add].
  rewrite <- !app_assoc. rewrite readHeaders_other by exact Hh. exact IH.
Qed.

Lemma readHeaders_length (f : nat) (cl n : Z) (ds rest : bytes) :
  ds <> [] -> Forall (fun c => strconv.isDigit c = true) ds ->
  strconv.Atoi ds = Some n ->
  lsp.readHeaders (S f) cl (lsp.hdr ++ ds ++ CRLF ++ rest) = lsp.readHeaders f n rest.
Proof.
  intros Hne Hds Ha. cbn [lsp.readHeaders].
  replace (lsp.hdr ++ ds ++ CRLF ++ rest)
    with ((lsp.hdr ++ ds ++ [CR]) ++ LF :: rest)
    by (rewrite <- !app_assoc; reflexivity).
  rewrite ReadString_app.
  2:{ intros Hin. apply elem_of_app in Hin as [Hin|Hin].
      - vm_compute in Hin. repeat (apply elem_of_cons in Hin as [Hin|Hin]; [discriminate Hin|]).
        inversion Hin.
      - apply elem_of_app in Hin as [Hin|Hin]; [exact (digits_no_LF _ Hds Hin)|].
        apply elem_of_cons in Hin as [Hin|Hin]; [discriminate Hin|inversion Hin]. }
  replace ((lsp.hdr ++ ds ++ [CR]) ++ [LF]) with (lsp.hdr ++ ds ++ CRLF)
    by (rewrite <- !app_assoc; reflexivity).
  rewrite TrimSpace_header by assumption.
  rewrite contentLengthValue_header, Ha.
  destruct (lsp.hdr ++ ds) eqn:E; [discriminate E|]. reflexivity.
Qed.

Lemma readHeaders_blank (f : nat) (cl : Z) (rest : bytes) :
  lsp.readHeaders (S f) cl (CRLF ++ rest) = (lsp.Ok cl, rest).
Proof.
  cbn [lsp.readHeaders]. change (CRLF ++ rest) with ([CR] ++ LF :: rest).
  rewrite ReadString_app; [reflexivity|].
  intros Hin. apply elem_of_cons in Hin as [Hin|Hin]; [discriminate Hin|inversion Hin].
Qed.

Lemma ReadMessage_extra_headers (hs1 hs2 : list bytes) (body rest : bytes) :
  Forall (fun h => lsp.otherHeader h = true) hs1 ->
  Forall (fun h => lsp.otherHeader h = true) hs2 ->
  body <> [] -> Z.of_nat (length body) <= lsp.maxAlloc ->
  lsp.ReadMessage
    (lsp.headerBlock hs1 ++ lsp.hdr ++ strconv.Itoa (Z.of_nat (length body)) ++ CRLF ++
     lsp.headerBlock hs2 ++ CRLF ++ body ++ rest)
  = (lsp.Ok body, rest).
Proof.
  intros H1 H2 Hne Hlen. unfold lsp.ReadMessage.
  remember (Z.of_nat (length body)) as n eqn:En.
  assert (Hn : 0 < n) by (destruct body; [contradiction|]; subst n; simpl; lia).
  assert (Hmax : lsp.maxAlloc = 281474976710656) by reflexivity.
  destruct (Itoa_digits n) as [Hds1 Hds2]; [lia|].
  match goal with |- context [lsp.readHeaders (length ?R) _ ?R] => set (r := R) end.
  set (F := (length hs1 + S (length hs2 + S (length r)))%nat).
  rewrite readHeaders_fuel2 with (f2 := F) by (subst F; lia).
  subst F r. rewrite readHeaders_block by exact H1.
  rewrite readHeaders_length with (n := n); auto.
  2:{ apply Atoi_Itoa. change (2^63) with 9223372036854775808. lia. }
  rewrite readHeaders_block by exact H2.
  rewrite readHeaders_blank.
  destruct (Z.eqb_spec n 0); [lia|].
  destruct (Z.ltb_spec n 0); [lia|].
  destruct (Z.ltb_spec lsp.maxAlloc n); [lia|]. cbn [orb].
  subst n. rewrite Nat2Z.id. apply ReadFull_app.
Qed.

(** C5 (amended). [ReadMessage] returns an error for every stream in which
    no header line is taken for a [Content-Length] header, in which the last
    length declared is zero, in which a [Content-Length] value is not an
    integer, which ends before the blank line, or whose body is shorter than
    the positive length declared; and it returns the body, ignoring them, on
    every message that carries other non-blank lines around its
    [Content-Length] header, whether or not they have the form of a header. *)
Theorem ReadMessage_errors_and_extra_headers :
  (forall r : bytes,
     let hs := lsp.headerLines (length r) r in
     (Forall (fun l => lsp.declaredLength l = None) hs ->
      exists e r', lsp.ReadMessage r = (lsp.Err e, r')) /\
     (lsp.lastLength 0 hs = 0 ->
      exists e r', lsp.ReadMessage r = (lsp.Err e, r')) /\
     (Exists (fun l => lsp.declaredLength l = Some None) hs ->
      exists v r', lsp.ReadMessage r = (lsp.Err (lsp.InvalidContentLength v), r')) /\
     (lsp.afterHeaders (length r) r = None ->
      exists e r', lsp.ReadMessage r = (lsp.Err e, r')) /\
     (forall rest,
        lsp.afterHeaders (length r) r = Some rest ->
        Forall (fun l => lsp.declaredLength l <> Some None) hs ->
        0 < lsp.lastLength 0 hs <= lsp.maxAlloc ->
        Z.of_nat (length rest) < lsp.lastLength 0 hs ->
        exists e, lsp.ReadMessage r = (lsp.Err (lsp.BodyReadFailed e), []))) /\
  (forall (hs1 hs2 : list bytes) (body rest : bytes),
     Forall (fun h => lsp.otherHeader h = true) hs1 ->
     Forall (fun h => lsp.otherHeader h = true) hs2 ->
     body <> [] -> Z.of_nat (length body) <= lsp.maxAlloc ->
     lsp.ReadMessage
       (lsp.headerBlock hs1 ++ lsp.hdr ++ strconv.Itoa (Z.of_nat (length body)) ++ CRLF ++
        lsp.headerBlock hs2 ++ CRLF ++ body ++ rest)
     = (lsp.Ok body, rest)).
Proof.
  split; [|exact ReadMessage_extra_headers].
  intros r hs. subst hs. repeat split.
  - intros H. apply ReadMessage_zero, lastLength_absent, H.
  - apply ReadMessage_zero.
  - apply ReadMessage_invalid.
  - apply ReadMessage_unterminated.
  - intros rest. apply ReadMessage_short_body.
Qed.

(** C5 as stated fails: a header section whose first line is no header field
    at all is read without error. *)
Lemma ReadMessage_malformed_header_accepted :
  lsp.headerField (bs "garbage") = false /\
  lsp.ReadMessage (bs "garbage" ++ CRLF ++ bs "Content-Length: 2" ++ CRLF ++ CRLF ++ bs "{}")
  = (lsp.Ok (bs "{}"), []).
Proof. split; vm_compute; reflexivity. Qed.

(** Evaluates the list of header lines a goal speaks about. *)
Ltac eval_lines :=
  match goal with
  | |- Forall ?P ?l => let l' := eval vm_compute in l in change (Forall P l')
  | |- Exists ?P ?l => let l' := eval vm_compute in l in change (Exists P l')
  end.

Lemma ReadMessage_errors_and_extra_headers_witness :
  (exists e r', lsp.ReadMessage (bs "Content-Type: x" ++ CRLF ++ CRLF ++ bs "{}") = (lsp.Err e, r')) /\
  (exists e r', lsp.ReadMessage (bs "Content-Length: 0" ++ CRLF ++ CRLF) = (lsp.Err e, r')) /\
  (exists v r', lsp.ReadMessage (bs "Content-Length: 1e3" ++ CRLF ++ CRLF ++ bs "{}")
                = (lsp.Err (lsp.InvalidContentLength v), r')) /\
  (exists e r', lsp.ReadMessage (bs "Content-Length: 2" ++ CRLF ++ bs "{}") = (lsp.Err e, r')) /\
  (exists e, lsp.ReadMessage (bs "Content-Length: 5" ++ CRLF ++ CRLF ++ bs "{}")
             = (lsp.Err (lsp.BodyReadFailed e), [])) /\
  lsp.ReadMessage
    (lsp.headerBlock [bs "Content-Type: application/vscode-jsonrpc"; bs "garbage"] ++
     lsp.hdr ++ strconv.Itoa 2 ++ CRLF ++ lsp.headerBlock [bs "X-Trace: 1"] ++ CRLF ++
     bs "{}" ++ bs "rest")
  = (lsp.Ok (bs "{}"), bs "rest").
Proof.
  pose proof ReadMessage_errors_and_extra_headers as [He Hx].
  split; [|split; [|split; [|split; [|split]]]].
  - apply (proj1 (He (bs "Content-Type: x" ++ CRLF ++ CRLF ++ bs "{}"))).
    eval_lines. repeat constructor.
  - apply (proj1 (proj2 (He (bs "Content-Length: 0" ++ CRLF ++ CRLF)))).
    vm_compute. reflexivity.
  - apply (proj1 (proj2 (proj2 (He (bs "Content-Length: 1e3" ++ CRLF ++ CRLF ++ bs "{}"))))).
    eval_lines. constructor. reflexivity.
  - apply (proj1 (proj2 (proj2 (proj2 (He (bs "Content-Length: 2" ++ CRLF ++ bs "{}")))))).
    vm_compute. reflexivity.
  - apply (proj2 (proj2 (proj2 (proj2 (He (bs "Content-Length: 5" ++ CRLF ++ CRLF ++ bs "{}")))))
             (bs "{}")).
    + vm_compute. reflexivity.
    + eval_lines. repeat constructor. vm_compute. discriminate.
    + vm_compute. split; [reflexivity|discriminate].
    + vm_compute. reflexivity.
  - apply (Hx [bs "Content-Type: application/vscode-jsonrpc"; bs "garbage"] [bs "X-Trace: 1"]
              (bs "{}") (bs "rest")).
    + repeat constructor.
    + repeat constructor.
    + vm_compute. discriminate.
    + vm_compute. discriminate.
Defined.

End FramingErrors.

Section Index.

Import server.




(** A call that reads the status while a run is in progress is turned away
    at once and leaves the world as it is. *)
Lemma index_rejected_in_progress (tid : nat) (env : IndexEnv) (w : World) :
  indexStatus (srv w) = IndexStatusInProgress ->
  step tid env w AtStart = (w, Returned (errorResult (bs "Indexing already in progress"))).
Proof.
  intros H. unfold step.
  destruct (decide (indexStatus (srv w) = IndexStatusInProgress)); [reflexivity|contradiction].
Qed.

Lemma index_alone_rejected (env : IndexEnv) (w : World) :
  indexStatus (srv w) = IndexStatusInProgress ->
  index env w = (w, Returned (errorResult (bs "Indexing already in progress"))).
Proof.
  intros H. unfold index. cbn [steps]. rewrite index_rejected_in_progress by exact H.
  reflexivity.
Qed.

Lemma mutationsOf_emit (tid tid' : nat) (e : event) (w : World) :
  mutationsOf tid (emit tid' e w)
  = mutationsOf tid w ++
    (if decide (tid' = tid) then if isStoreMutation e then [e] else [] else []).
Proof.
  unfold mutationsOf, emit. cbn [trace].
  rewrite filter_app, map_app, filter_app. f_equal.
  rewrite filter_cons, filter_nil. cbn [fst].
  destruct (decide (tid' = tid)); [|reflexivity].
  cbn [map snd]. rewrite filter_cons, filter_nil.
  destruct (isStoreMutation e); reflexivity.
Qed.

Lemma mutationsOf_update (tid tid' : nat) (e : event) (f : Server -> Server) (w : World) :
  mutationsOf tid (update tid' e f w) = mutationsOf tid (emit tid' e w).
Proof. reflexivity. Qed.

Lemma step_AtScan (tid : nat) (env : IndexEnv) (w : World) (nodes : list Node) :
  scan env = inl nodes ->
  step tid env w AtScan = (emit tid EvScan w, AtUpsertNodes nodes).
Proof. intros H. unfold step. rewrite H. reflexivity. Qed.

Lemma step_AtUpsertNodes (tid : nat) (env : IndexEnv) (w : World) (nodes : list Node) :
  fst (step tid env w (AtUpsertNodes nodes)) = emit tid (EvBulkUpsertNodes nodes) w.
Proof. unfold step. destruct (upsertNodes env); reflexivity. Qed.

Lemma sched_step_second (env1 env2 : IndexEnv) (c : Config) :
  sched_step env1 env2 c false
  = {| world := fst (step 2 env2 (world c) (call2 c)); call1 := call1 c;
       call2 := snd (step 2 env2 (world c) (call2 c)) |}.
Proof. unfold sched_step. destruct (step 2 env2 (world c) (call2 c)); reflexivity. Qed.

(** C1, on the code: when two calls of [index] both read the status before
    either sets it, neither is turned away; both are in flight at once, and
    the second goes on to write to the store. *)
Theorem index_calls_race (env1 env2 : IndexEnv) (w : World) (nodes : list Node) :
  indexStatus (srv w) <> IndexStatusInProgress ->
  scan env2 = inl nodes ->
  let c := exec env1 env2 raceSchedule {| world := w; call1 := AtStart; call2 := AtStart |} in
  (call1 c = AtScan /\ call2 c = AtScan /\
   running (call1 c) = true /\ running (call2 c) = true /\
   indexStatus (srv (world c)) = IndexStatusInProgress) /\
  let c' := exec env1 env2 [false; false] c in
  mutationsOf 2 (world c') = mutationsOf 2 w ++ [EvBulkUpsertNodes nodes].
Proof.
  intros Hst Hscan.
  destruct w as [[st err rdy] tr]. cbn [srv indexStatus] in Hst.
  assert (Hc : exec env1 env2 raceSchedule
                 {| world := {| srv := {| indexStatus := st; indexError := err; indexReady := rdy |};
                                trace := tr |};
                    call1 := AtStart; call2 := AtStart |}
               = {| world :=
                      {| srv := {| indexStatus := IndexStatusInProgress; indexError := None;
                                   indexReady := if decide (st = IndexStatusIdle) then rdy else false |};
                         trace := tr ++
                           (if decide (st = IndexStatusIdle) then []
                            else [(1%nat, EvResetReady); (2%nat, EvResetReady)]) ++
                           [(1%nat, EvSetIndexStatus IndexStatusInProgress None);
                            (2%nat, EvSetIndexStatus IndexStatusInProgress None)] |};
                    call1 := AtScan; call2 := AtScan |}).
  { destruct st; try contradiction; cbv -[app]; rewrite <- ?app_assoc; reflexivity. }
  cbn zeta. rewrite Hc. split; [repeat split|].
  unfold exec. cbn [fold_left]. rewrite !sched_step_second. cbn [world call1 call2].
  rewrite (step_AtScan _ _ _ nodes Hscan). cbn [fst snd].
  rewrite step_AtUpsertNodes, !mutationsOf_emit. cbn [isStoreMutation].
  rewrite app_nil_r. f_equal.
  unfold mutationsOf. cbn [trace].
  rewrite !filter_app, !map_app, !filter_app.
  destruct (decide (st = IndexStatusIdle)); cbn; rewrite ?app_nil_r; reflexivity.
Qed.

Lemma index_calls_race_witness :
  let c := exec emptyRun emptyRun (raceSchedule ++ [false; false])
             {| world := idle; call1 := AtStart; call2 := AtStart |} in
  running (call1 c) = true /\ mutationsOf 2 (world c) = [EvBulkUpsertNodes []].
Proof.
  destruct (index_calls_race emptyRun emptyRun idle []) as [(_ & _ & H1 & _) H2];
    [discriminate|reflexivity|].
  split; [exact H1|exact H2].
Defined.


End Index.

Section Source.

Import server.

Lemma dropCR_plain (l : bytes) : last l <> Some CR -> bufio.dropCR l = l.
Proof.
  intros H. unfold bufio.dropCR. destruct (last l) as [c|]; [|reflexivity].
  destruct (Ascii.eqb_spec c CR) as [->|]; [contradiction|reflexivity].
Qed.

Lemma Scan_line (l rest : bytes) :
  scannable l -> bufio.Scan (l ++ LF :: rest) = bufio.Token (bufio.dropCR l) rest.
Proof.
  intros [Hn Hlen]. unfold bufio.Scan.
  destruct (l ++ LF :: rest) eqn:E; [destruct l; discriminate E|]. rewrite <- E.
  rewrite Index_single_app by exact Hn.
  destruct (Nat.ltb_spec (length l) bufio.MaxScanTokenSize); [|lia].
  replace (l ++ LF :: rest) with ((l ++ [LF]) ++ rest) by (rewrite <- app_assoc; reflexivity).
  rewrite drop_app_length' by (rewrite length_app; simpl; lia).
  rewrite <- app_assoc, take_app_length. reflexivity.
Qed.

Lemma Scan_last_line (l : bytes) :
  scannable l -> l <> [] -> bufio.Scan l = bufio.Token (bufio.dropCR l) [].
Proof.
  intros [Hn Hlen] Hne. unfold bufio.Scan. destruct l as [|c l]; [contradiction|].
  rewrite Index_single_None by exact Hn.
  destruct (Nat.ltb_spec (length (c :: l)) bufio.MaxScanTokenSize); [reflexivity|lia].
Qed.

Lemma Scan_shorter (data tok rest : bytes) :
  bufio.Scan data = bufio.Token tok rest -> (length rest < length data)%nat.
Proof.
  unfold bufio.Scan. destruct data as [|c data']; [discriminate|].
  remember (c :: data') as data eqn:Ed.
  destruct (strings.Index data [LF]) as [i|] eqn:E.
  - destruct (i <? bufio.MaxScanTokenSize)%nat; [|discriminate].
    intros [= _ <-]. apply Index_single_Some in E as (l & r & E & _ & Hl).
    rewrite E, <- Hl. replace (l ++ LF :: r) with ((l ++ [LF]) ++ r) by (rewrite <- app_assoc; reflexivity).
    rewrite drop_app_length' by (rewrite length_app; simpl; lia).
    rewrite !length_app. simpl. lia.
  - destruct (length data <? bufio.MaxScanTokenSize)%nat; [|discriminate].
    intros [= _ <-]. subst data. simpl. lia.
Qed.

Lemma readLines_fuel (f1 f2 : nat) (ls le : Z) (data : bytes) (cur : Z) (first : bool) (b : bytes) :
  (length data <= f1)%nat -> (length data <= f2)%nat ->
  readLines f1 ls le data cur first b = readLines f2 ls le data cur first b.
Proof.
  revert f2 data cur first b. induction f1 as [|f1 IH]; intros f2 data cur first b H1 H2.
  - destruct data; [|simpl in H1; lia]. destruct f2; reflexivity.
  - destruct f2 as [|f2]; [destruct data; [reflexivity|simpl in H2; lia]|].
    cbn [readLines]. destruct (bufio.Scan data) as [tok rest| |] eqn:E; try reflexivity.
    apply Scan_shorter in E.
    destruct ((ls <=? cur) && (cur <=? le)); (destruct (le <? cur); [reflexivity|apply IH; lia]).
Qed.

(** Lines before the selection are passed over. *)
Lemma readLines_skip (pre : list bytes) : forall (f : nat) (ls le : Z) (rest : bytes) (cur : Z),
  Forall scannable pre ->
  cur + Z.of_nat (length pre) <= ls -> ls <= le ->
  readLines (length pre + f) ls le (unlines pre ++ rest) cur true []
  = readLines f ls le rest (cur + Z.of_nat (length pre)) true [].
Proof.
  induction pre as [|l pre IH]; intros f ls le rest cur Hok Hcur Hle.
  - simpl. rewrite Z.add_0_r. reflexivity.
  - inversion Hok as [|? ? Hl Hpre]; subst.
    unfold unlines in *. cbn [length map concat Nat.add readLines].
    rewrite <- !app_assoc. cbn [app]. rewrite Scan_line by exact Hl.
    cbn [length] in Hcur. rewrite Nat2Z.inj_succ in Hcur |- *.
    destruct (Z.leb_spec ls cur); [lia|]. cbn [andb].
    destruct (Z.ltb_spec le cur); [lia|].
    rewrite IH by (auto; lia). f_equal. lia.
Qed.

(** Selected lines but the last are appended, a line feed between them. *)
Lemma readLines_take (sel : list bytes) : forall (f : nat) (ls le : Z) (rest : bytes) (cur : Z)
    (first : bool) (b : bytes),
  Forall plainLine sel ->
  ls <= cur -> cur + Z.of_nat (length sel) <= le + 1 ->
  readLines (length sel + f) ls le (unlines sel ++ rest) cur first b
  = readLines f ls le rest (cur + Z.of_nat (length sel))
      (match sel with [] => first | _ => false end)
      (match sel with
       | [] => b
       | _ => (if first then b else b ++ [LF]) ++ joinLines sel
       end).
Proof.
  induction sel as [|l sel IH]; intros f ls le rest cur first b Hok Hcur Hle.
  - simpl. rewrite Z.add_0_r. reflexivity.
  - inversion Hok as [|? ? [Hl Hcr] Hsel]; subst.
    unfold unlines in *. cbn [length map concat Nat.add readLines].
    rewrite <- !app_assoc. cbn [app]. rewrite Scan_line by exact Hl.
    rewrite dropCR_plain by exact Hcr.
    cbn [length] in Hle. rewrite Nat2Z.inj_succ in Hle |- *.
    destruct (Z.leb_spec ls cur); [|lia].
    destruct (Z.leb_spec cur le); [|lia]. cbn [andb].
    destruct (Z.ltb_spec le cur); [lia|].
    rewrite IH by (auto; lia). f_equal; [lia| |].
    + destruct sel; reflexivity.
    + destruct sel as [|l' sel]; [reflexivity|].
      cbn [joinLines]. rewrite <- !app_assoc. reflexivity.
Qed.


Lemma joinLines_snoc (sel : list bytes) (l : bytes) :
  joinLines (sel ++ [l]) = unlines sel ++ l.
Proof.
  induction sel as [|a sel IH]; [reflexivity|].
  cbn [app joinLines]. destruct (sel ++ [l]) eqn:E; [destruct sel; discriminate E|].
  rewrite IH. unfold unlines. cbn [map concat]. rewrite <- !app_assoc. reflexivity.
Qed.

Lemma joinLines_unlines (sel : list bytes) (l : bytes) :
  sel <> [] -> unlines sel ++ l = joinLines sel ++ [LF] ++ l.
Proof.
  induction sel as [|a sel IH]; intros Hne; [contradiction|].
  unfold unlines in *. cbn [map concat joinLines].
  destruct sel as [|a' sel]; [cbn; rewrite <- !app_assoc; reflexivity|].
  rewrite <- !app_assoc. f_equal. f_equal. apply IH. discriminate.
Qed.

(** The last selected line, and the look at what follows it. *)
Lemma readLines_last (f : nat) (le : Z) (ls : Z) (l tail : bytes) (first : bool) (b : bytes) :
  plainLine l -> ls <= le ->
  (tail = [] /\ l <> []) \/ (exists tail', tail = LF :: tail' /\ bufio.Scan tail' <> bufio.TooLong) ->
  readLines (S (S f)) ls le (l ++ tail) le first b
  = inl ((if first then b else b ++ [LF]) ++ l).
Proof.
  intros [Hl Hcr] Hle [[-> Hne]|(tail' & -> & Ht)]; cbn [readLines].
  - rewrite app_nil_r, Scan_last_line, dropCR_plain by assumption.
    destruct (Z.leb_spec ls le); [|lia]. rewrite Z.leb_refl, Z.ltb_irrefl. cbn [andb].
    reflexivity.
  - rewrite Scan_line, dropCR_plain by assumption.
    destruct (Z.leb_spec ls le); [|lia]. rewrite Z.leb_refl, Z.ltb_irrefl. cbn [andb].
    destruct (bufio.Scan tail') as [tok rest| |]; [|reflexivity|contradiction].
    destruct (Z.leb_spec (le + 1) le); [lia|]. rewrite andb_false_r.
    destruct (Z.ltb_spec le (le + 1)); [reflexivity|lia].
Qed.

Lemma readSource_lines (q : QueryEnv) (path : bytes) (pre sel : list bytes) (tail : bytes)
    (ls le : Z) :
  openFile q path = inl (unlines pre ++ joinLines sel ++ tail) ->
  Forall scannable pre -> Forall plainLine sel -> sel <> [] ->
  afterSelection sel tail ->
  ls = Z.of_nat (length pre) + 1 -> le = Z.of_nat (length pre + length sel) ->
  readSource q path ls le = inl (joinLines sel).
Proof.
  intros Hopen Hpre Hsel Hne Htail -> ->. unfold readSource. rewrite Hopen.
  destruct (exists_last Hne) as (sel0 & l & ->).
  apply Forall_app in Hsel as [Hsel0 Hl]. inversion Hl as [|? ? Hl' _]; subst.
  rewrite joinLines_snoc, <- !app_assoc.
  match goal with |- readLines (length ?D) _ _ _ _ _ _ = _ => set (F := length D) end.
  rewrite readLines_fuel with (f2 := (length pre + (length sel0 + S (S F)))%nat).
  2:{ subst F. lia. }
  2:{ subst F. lia. }
  rewrite length_app. cbn [length].
  rewrite readLines_skip by (auto; lia).
  rewrite readLines_take by (auto; lia).
  replace (1 + Z.of_nat (length pre) + Z.of_nat (length sel0))
    with (Z.of_nat (length pre + (length sel0 + 1))) by lia.
  rewrite readLines_last.
  - f_equal. destruct sel0 as [|a sel0]; [reflexivity|].
    rewrite joinLines_unlines by discriminate. rewrite <- !app_assoc. reflexivity.
  - exact Hl'.
  - lia.
  - destruct Htail as [[-> Hlast]|Ht]; [left|right; exact Ht].
    split; [reflexivity|]. intros ->. apply Hlast. rewrite last_snoc. reflexivity.
Qed.


Lemma Contains_infix (s pre sub post : bytes) :
  s = pre ++ sub ++ post -> strings.Contains s sub = true.
Proof.
  unfold strings.Contains. revert s. induction pre as [|a pre IH]; intros s ->.
  - cbn [app]. destruct (sub ++ post) eqn:E; unfold strings.Index;
      rewrite <- ?E, HasPrefix_app; reflexivity.
  - cbn [app strings.Index]. destruct (strings.HasPrefix _ sub); [reflexivity|].
    specialize (IH _ eq_refl). destruct (strings.Index (pre ++ sub ++ post) sub); [reflexivity|discriminate IH].
Qed.

Section GetSymbol.

Context (marshalInfo : list SymbolInfo -> bytes).

(** C6 (amended). Once the index is ready, for every node the store returns
    whose file reads as [line_start - 1] lines, then the selected lines
    joined by line feeds, then the rest, where lines are closed by a single
    line feed (no carriage return before it) and fit the scanner's buffer of
    64 KiB, the record of the node in the answer of [get_symbol] with
    [with_source] carries exactly the selected lines joined by line feeds:
    the bytes of the file from the start of line [line_start] to the end of
    line [line_end], without the final line feed. *)
Theorem get_symbol_source (ctx : Context) (q : QueryEnv) (symbol_name : bytes)
    (nodes : list Node) (n : Node) (pre sel : list bytes) (tail : bytes) (t : Z) :
  awaitIndex ctx q = (None, t) ->
  GetSymbolLocation q symbol_name = inl nodes -> n ∈ nodes ->
  openFile q (FilePath n) = inl (unlines pre ++ joinLines sel ++ tail) ->
  Forall scannable pre -> Forall plainLine sel -> sel <> [] ->
  afterSelection sel tail ->
  LineStart n = Z.of_nat (length pre) + 1 ->
  LineEnd n = Z.of_nat (length pre + length sel) ->
  exists infos,
    result (get_symbol marshalInfo ctx q symbol_name true) = textResult (marshalInfo infos) /\
    {| node := n; source := joinLines sel |} ∈ infos.
Proof.
  intros Hw Hq Hin Hopen Hpre Hsel Hne Htail Hls Hle.
  unfold get_symbol. rewrite Hw, Hq.
  exists (map (symbolInfo q true) nodes). split.
  - destruct nodes; [inversion Hin|reflexivity].
  - apply list_elem_of_fmap. exists n. split; [|exact Hin].
    unfold symbolInfo.
    rewrite (readSource_lines q _ pre sel tail) by assumption. reflexivity.
Qed.

End GetSymbol.

Ltac not_in_line :=
  let H := fresh in
  intros H; repeat (apply elem_of_cons in H as [H|H]; [discriminate H|]); inversion H.

Ltac scannable_ok :=
  split; [not_in_line | apply Nat.ltb_lt; vm_compute; reflexivity].

Ltac plain_ok :=
  split; [scannable_ok | vm_compute; discriminate].

Lemma get_symbol_source_witness :
  let file := bs "package w" ++ [LF] ++ [LF] ++ bs "func Foo() {" ++ [LF] ++ bs "}" ++ [LF] in
  let q := readyEnv (bs "/w/a.go") file [fooNode 3 4] in
  exists infos,
    result (get_symbol showSources None q (bs "Foo") true) = textResult (showSources infos) /\
    {| node := fooNode 3 4; source := bs "func Foo() {" ++ [LF] ++ bs "}" |} ∈ infos.
Proof.
  cbn zeta.
  apply (get_symbol_source showSources None _ (bs "Foo") [fooNode 3 4] (fooNode 3 4)
           [bs "package w"; []] [bs "func Foo() {"; bs "}"] [LF] 0).
  - reflexivity.
  - reflexivity.
  - left.
  - reflexivity.
  - repeat (apply Forall_cons_2; [scannable_ok|]). apply Forall_nil_2.
  - repeat (apply Forall_cons_2; [plain_ok|]). apply Forall_nil_2.
  - discriminate.
  - right. exists []. split; [reflexivity|discriminate].
  - reflexivity.
  - reflexivity.
Defined.

(** C6 as stated fails on a file with CR LF line ends: the source returned
    for lines 2 to 3 has lost the carriage return between them, and is no
    substring of the file. *)
Lemma get_symbol_source_crlf :
  let file := bs "x" ++ CRLF ++ bs "a" ++ CRLF ++ bs "b" ++ CRLF in
  let q := readyEnv (bs "/w/a.go") file [fooNode 2 3] in
  source (symbolInfo q true (fooNode 2 3)) = bs "a" ++ [LF] ++ bs "b" /\
  ~ exists pre post, file = pre ++ source (symbolInfo q true (fooNode 2 3)) ++ post.
Proof.
  cbn zeta.
  assert (E : source (symbolInfo (readyEnv (bs "/w/a.go")
                (bs "x" ++ CRLF ++ bs "a" ++ CRLF ++ bs "b" ++ CRLF) [fooNode 2 3]) true (fooNode 2 3))
              = bs "a" ++ [LF] ++ bs "b") by (vm_compute; reflexivity).
  split; [exact E|]. rewrite E. intros (pre & post & H).
  apply Contains_infix in H. vm_compute in H. discriminate H.
Qed.


End Source.

Section Queries.

Import server.

Context (marshalSimple : list SimpleNode -> bytes)
        (marshalImpact : list ImpactNode -> bytes)
        (marshalInfo : list SymbolInfo -> bytes).

Local Abbreviation callTool := (server.callTool marshalSimple marshalImpact marshalInfo).

Lemma WithTimeout_bound (ctx : Context) (d : Z) : fst (WithTimeout ctx d) <= d.
Proof.
  unfold WithTimeout. destruct ctx as [[t e]|]; [|simpl; lia].
  destruct (Z.leb_spec t d); simpl; lia.
Qed.

Lemma awaitIndex_bound (ctx : Context) (q : QueryEnv) :
  snd (awaitIndex ctx q) <= 30 * Second.
Proof.
  pose proof (WithTimeout_bound ctx (30 * Second)) as Hb.
  unfold awaitIndex, WaitForIndex, GetIndexStatus.
  destruct (readyAt q) as [t|].
  - destruct (Z.leb_spec t (fst (WithTimeout ctx (30 * Second)))); [simpl; lia|].
    destruct (indexError (afterWait q)); [simpl; lia|].
    destruct (decide _); simpl; lia.
  - destruct (indexError (afterWait q)); [simpl; lia|].
    destruct (decide _); simpl; lia.
Qed.

Lemma awaitIndex_failed (ctx : Context) (q : QueryEnv) :
  waitFails ctx q ->
  awaitIndex ctx q =
    (Some (match indexError (afterWait q) with
           | Some e => errorResult (bs "Indexing failed: " ++ e)
           | None =>
               if decide (indexStatus (afterWait q) = IndexStatusInProgress)
               then errorResult (bs "Indexing in progress, please try again")
               else errorResult (bs "Indexing wait failed: " ++
                                 ctxErrorMsg (snd (WithTimeout ctx (30 * Second))))
           end),
     fst (WithTimeout ctx (30 * Second))).
Proof.
  unfold waitFails, awaitIndex, WaitForIndex, GetIndexStatus. intros H.
  destruct (readyAt q) as [t|].
  - destruct (Z.leb_spec t (fst (WithTimeout ctx (30 * Second)))); [lia|].
    destruct (indexError (afterWait q)); [reflexivity|].
    destruct (decide _); reflexivity.
  - destruct (indexError (afterWait q)); [reflexivity|].
    destruct (decide _); reflexivity.
Qed.

Lemma callTool_await (ctx : Context) (q : QueryEnv) (c : queryCall) :
  waited (callTool ctx q c) = snd (awaitIndex ctx q) /\
  forall res, fst (awaitIndex ctx q) = Some res ->
    result (callTool ctx q c) = res /\ queried (callTool ctx q c) = false.
Proof.
  destruct c as [fp|sn|sn ws]; unfold callTool, get_symbols_in_file, find_impact, get_symbol;
    destruct (awaitIndex ctx q) as [[r|] t]; cbn [fst snd].
  all: try (split; [reflexivity|intros res [= <-]; split; reflexivity]).
  - split; [|discriminate]. destruct (GetSymbolsInFile q fp); reflexivity.
  - split; [|discriminate]. destruct (FindImpact q sn) as [[|]|]; reflexivity.
  - split; [|discriminate]. destruct (GetSymbolLocation q sn) as [[|]|]; reflexivity.
Qed.


Lemma index_consistent (env : IndexEnv) (w : World) :
  consistent (srv w) -> consistent (srv (fst (index env w))).
Proof.
  destruct w as [[st err rdy] tr]. destruct env as [sc un pr en ue secs].
  destruct st, sc, un, pr, en, ue;
    cbv -[app indexedMsg bs]; intros H; try exact H; try reflexivity;
    (split; [first [reflexivity | apply H] | first [discriminate | apply H]]).
Qed.

(** Whoever moves, a status in progress never comes with an error. *)
Lemma step_no_stale_error (tid : nat) (env : IndexEnv) (w : World) (p : pc) :
  (indexStatus (srv w) = IndexStatusInProgress -> indexError (srv w) = None) ->
  indexStatus (srv (fst (step tid env w p))) = IndexStatusInProgress ->
  indexError (srv (fst (step tid env w p))) = None.
Proof.
  intros H. destruct p; unfold step;
    repeat match goal with
           | |- context [decide ?P] => destruct (decide P)
           | |- context [match ?x with _ => _ end] => destruct x
           end;
    cbn; auto; discriminate.
Qed.


Lemma exec_no_stale_error (env1 env2 : IndexEnv) (schedule : list bool) : forall c : Config,
  (indexStatus (srv (world c)) = IndexStatusInProgress -> indexError (srv (world c)) = None) ->
  indexStatus (srv (world (exec env1 env2 schedule c))) = IndexStatusInProgress ->
  indexError (srv (world (exec env1 env2 schedule c))) = None.
Proof.
  unfold exec. induction schedule as [|b schedule IH]; intros c H; [exact H|].
  cbn [fold_left]. apply IH. unfold sched_step. destruct b.
  - pose proof (step_no_stale_error 1 env1 (world c) (call1 c) H) as Hs.
    destruct (step 1 env1 (world c) (call1 c)). exact Hs.
  - pose proof (step_no_stale_error 2 env2 (world c) (call2 c) H) as Hs.
    destruct (step 2 env2 (world c) (call2 c)). exact Hs.
Qed.

Lemma quiet_waitFails (ctx : Context) (s : Server) (q : QueryEnv) :
  indexReady s = false -> waitFails ctx (quiet s q).
Proof. intros H. unfold waitFails, quiet. cbn [readyAt]. rewrite H. exact I. Qed.


End Queries.



Section Download.

Import downloader.

Example downloadFile_all_fail :
  downloadFile (linuxEnv (DoFailed (bs "timeout")) [])
  = ([EvAttempt 1; EvBackoff (4 * Second); EvAttempt 2; EvBackoff (9 * Second); EvAttempt 3],
     inl (bs "download failed after 3 attempts: timeout")).
Proof. vm_compute. reflexivity. Qed.

Example GetLSPMetadata_go :
  (fun metadata => (Version metadata, DownloadURLs metadata !! bs "linux-arm64",
                    Checksums metadata !! bs "linux-arm64"))
    <$> GetLSPMetadata (fun _ => Some (bs "v0.21.2")) (bs "go")
  = Some (bs "v0.21.2",
          Some (bs "https://github.com/golang/tools/releases/download/gopls/v0.21.2/gopls-v0.21.2-linux-arm64.tar.gz"),
          Some []).
Proof. vm_compute. reflexivity. Qed.

Example downloadAndInstall_go :
  (fun metadata =>
     fst (downloadAndInstall (linuxEnv Downloaded (bs "tarball")) (bs "/c") (bs "go") metadata))
    <$> GetLSPMetadata (fun _ => None) (bs "go")
  = Some [EvMkdirAll (bs "/c/go/v0.21.1"); EvCreateTemp; EvAttempt 1; EvExtractArchive].
Proof. vm_compute. reflexivity. Qed.


Lemma bind_trace {A B : Type} (m : M A) (k : A -> M B) (a : A) (tr : list event) :
  m = (tr, inr a) -> (m ≫= k) = (tr ++ fst (k a), snd (k a)).
Proof. intros ->. unfold mbind, M_bind, bind. destruct (k a). reflexivity. Qed.

Lemma bind_fail {A B : Type} (m : M A) (k : A -> M B) (e : error) (tr : list event) :
  m = (tr, inl e) -> (m ≫= k) = (tr, inl e).
Proof. intros ->. reflexivity. Qed.

(** The loop makes the attempts [attempt, attempt + 1, ...], at most
    [remaining] of them, each but attempt 1 after its own wait. *)
Lemma downloadAttempts_paced (env : Env) (remaining : nat) : forall (attempt : Z) (lastErr : error),
  paced attempt (fst (downloadAttempts env remaining attempt lastErr)) = true /\
  (length (attempts (fst (downloadAttempts env remaining attempt lastErr))) <= remaining)%nat.
Proof.
  induction remaining as [|r IH]; intros attempt lastErr; [split; [reflexivity|simpl; lia]|].
  cbn [downloadAttempts].
  assert (Hrec : forall err,
    paced attempt (fst (([EvAttempt attempt], inr tt) ≫= fun _ : unit => downloadAttempts env r (attempt + 1) err)) = true /\
    (length (attempts (fst (([EvAttempt attempt], inr tt) ≫= fun _ : unit => downloadAttempts env r (attempt + 1) err))) <= S r)%nat).
  { intros err. destruct (IH (attempt + 1) err) as [Hp Hl].
    rewrite (bind_trace _ _ tt [EvAttempt attempt]) by reflexivity. cbn [fst app paced].
    rewrite Z.eqb_refl, Hp. split; [reflexivity|].
    change (length (attempt :: attempts (fst (downloadAttempts env r (attempt + 1) err))) <= S r)%nat.
    cbn [length]. lia. }
  match goal with |- context [mbind (fun _ : unit => ?body) _] => set (B := body) end.
  assert (Hbody : paced attempt (fst B) = true /\ (length (attempts (fst B)) <= S r)%nat).
  { subst B. destruct (outcome env attempt); try apply Hrec.
    all: cbn [fst paced]; rewrite Z.eqb_refl.
    all: split; [reflexivity|simpl; lia]. }
  clearbody B.
  destruct Hbody as [Hp Hl].
  destruct (1 <? attempt).
  - destruct (ctxDone env attempt) as [err|].
    + rewrite (bind_fail _ _ err [EvBackoff (attempt * attempt * Second)]) by reflexivity.
      cbn [fst paced attempts omap]. rewrite Z.eqb_refl. split; [reflexivity|simpl; lia].
    + rewrite (bind_trace _ _ tt [EvBackoff (attempt * attempt * Second)]) by reflexivity.
      cbn beta. cbn [fst app paced]. rewrite Z.eqb_refl, Hp. split; [reflexivity|exact Hl].
  - rewrite (bind_trace _ _ tt []) by reflexivity. cbn beta. cbn [fst app]. split; assumption.
Qed.


Lemma downloadAttempts_retry (env : Env) (r : nat) (attempt : Z) (lastErr e : error) :
  retried (outcome env attempt) = Some e ->
  attempt <= 1 \/ ctxDone env attempt = None ->
  downloadAttempts env (S r) attempt lastErr
  = ((if 1 <? attempt then [EvBackoff (attempt * attempt * Second)] else []) ++
     EvAttempt attempt :: fst (downloadAttempts env r (attempt + 1) e),
     snd (downloadAttempts env r (attempt + 1) e)).
Proof.
  intros Hr Hc. cbn [downloadAttempts].
  match goal with |- context [mbind (fun _ : unit => ?body) _] => set (B := body) end.
  assert (HB : B = (EvAttempt attempt :: fst (downloadAttempts env r (attempt + 1) e),
                    snd (downloadAttempts env r (attempt + 1) e))).
  { subst B. destruct (outcome env attempt); cbn [retried] in Hr; try discriminate Hr;
      injection Hr as <-;
      (erewrite bind_trace by reflexivity); reflexivity. }
  rewrite HB. clear B HB.
  destruct (Z.ltb_spec 1 attempt) as [Hlt|Hge].
  - destruct Hc as [Hc|Hc]; [lia|]. rewrite Hc.
    erewrite bind_trace by reflexivity. reflexivity.
  - erewrite bind_trace by reflexivity. reflexivity.
Qed.

Lemma downloadAttempts_cancelled (env : Env) (r : nat) (attempt : Z) (lastErr err : error) :
  1 < attempt -> ctxDone env attempt = Some err ->
  downloadAttempts env (S r) attempt lastErr
  = ([EvBackoff (attempt * attempt * Second)], inl err).
Proof.
  intros Hlt Hc. cbn [downloadAttempts].
  destruct (Z.ltb_spec 1 attempt); [|lia]. rewrite Hc. reflexivity.
Qed.

(** C8 (amended). [downloadFile] makes at most 3 attempts and waits, before
    attempt [n > 1], [n * n] seconds: 4 seconds before attempt 2 and 9
    seconds before attempt 3.  After a third failed attempt it returns an
    error that wraps the error of that attempt; and when the context is done
    during a wait, it returns the error of the context at once. *)
Theorem downloadFile_retries (env : Env) :
  (length (attempts (fst (downloadFile env))) <= 3)%nat /\
  paced 1 (fst (downloadFile env)) = true /\
  (forall e1 e2 e3,
     retried (outcome env 1) = Some e1 -> retried (outcome env 2) = Some e2 ->
     retried (outcome env 3) = Some e3 ->
     ctxDone env 2 = None -> ctxDone env 3 = None ->
     downloadFile env
     = ([EvAttempt 1; EvBackoff (4 * Second); EvAttempt 2; EvBackoff (9 * Second); EvAttempt 3],
        inl (bs "download failed after 3 attempts: " ++ e3))) /\
  (forall e1 err,
     retried (outcome env 1) = Some e1 -> ctxDone env 2 = Some err ->
     downloadFile env = ([EvAttempt 1; EvBackoff (4 * Second)], inl err)) /\
  (forall e1 e2 err,
     retried (outcome env 1) = Some e1 -> retried (outcome env 2) = Some e2 ->
     ctxDone env 2 = None -> ctxDone env 3 = Some err ->
     downloadFile env
     = ([EvAttempt 1; EvBackoff (4 * Second); EvAttempt 2; EvBackoff (9 * Second)], inl err)).
Proof.
  unfold downloadFile. change (Z.to_nat maxRetries) with 3%nat.
  split; [apply downloadAttempts_paced|]. split; [apply downloadAttempts_paced|].
  split; [|split].
  - intros e1 e2 e3 H1 H2 H3 C2 C3.
    rewrite (downloadAttempts_retry env 2 1 [] e1 H1) by (left; lia).
    rewrite (downloadAttempts_retry env 1 (1 + 1) e1 e2 H2) by (right; exact C2).
    rewrite (downloadAttempts_retry env 0 (1 + 1 + 1) e2 e3 H3) by (right; exact C3).
    reflexivity.
  - intros e1 err H1 C2.
    rewrite (downloadAttempts_retry env 2 1 [] e1 H1) by (left; lia).
    rewrite (downloadAttempts_cancelled env 1 (1 + 1) e1 err) by (lia || exact C2).
    reflexivity.
  - intros e1 e2 err H1 H2 C2 C3.
    rewrite (downloadAttempts_retry env 2 1 [] e1 H1) by (left; lia).
    rewrite (downloadAttempts_retry env 1 (1 + 1) e1 e2 H2) by (right; exact C2).
    rewrite (downloadAttempts_cancelled env 0 (1 + 1 + 1) e2 err) by (lia || exact C3).
    reflexivity.
Qed.

Lemma downloadFile_retries_witness :
  downloadFile (linuxEnv (BadStatus 503 (bs "503 Service Unavailable")) [])
  = ([EvAttempt 1; EvBackoff (4 * Second); EvAttempt 2; EvBackoff (9 * Second); EvAttempt 3],
     inl (bs "download failed after 3 attempts: HTTP 503: 503 Service Unavailable")).
Proof.
  apply (proj1 (proj2 (proj2 (downloadFile_retries
           (linuxEnv (BadStatus 503 (bs "503 Service Unavailable")) []))))
         (bs "HTTP 503: 503 Service Unavailable") (bs "HTTP 503: 503 Service Unavailable"));
    reflexivity.
Defined.

(** C8 as stated fails: the waits of a run whose attempts all fail are of 4
    and 9 seconds, not of 1 and 4. *)
Lemma downloadFile_backoffs :
  backoffs (fst (downloadFile (linuxEnv (DoFailed (bs "timeout")) [])))
  = [4 * Second; 9 * Second] /\
  backoffs (fst (downloadFile (linuxEnv (DoFailed (bs "timeout")) [])))
  <> [1 * Second; 4 * Second].
Proof. split; [vm_compute; reflexivity|vm_compute; discriminate]. Qed.

End Download.

Section Checksums.

Import downloader.

Lemma mapGet_noChecksums (platform : bytes) :
  mapGet (list_to_map noChecksums) platform = [].
Proof.
  unfold mapGet. destruct (list_to_map noChecksums !! platform) as [v|] eqn:E; [|reflexivity].
  apply elem_of_list_to_map_2 in E. unfold noChecksums in E.
  apply list_elem_of_fmap in E as (p & [= _ ->] & _). reflexivity.
Qed.

Lemma lspMetadata_no_checksum (lang platform : bytes) (metadata : LSPServerMetadata) :
  lspMetadata !! lang = Some metadata -> mapGet (Checksums metadata) platform = [].
Proof.
  intros E. apply elem_of_list_to_map_2 in E. unfold lspMetadataEntries in E.
  repeat (apply elem_of_cons in E as [[= _ ->]|E]; [apply mapGet_noChecksums|]).
  inversion E.
Qed.

Lemma verifies_app (a b : list event) : verifies (a ++ b) = verifies a ++ verifies b.
Proof. apply omap_app. Qed.

Lemma verifies_bind {A B : Type} (m : M A) (k : A -> M B) :
  verifies (fst m) = [] -> (forall a, verifies (fst (k a)) = []) ->
  verifies (fst (m ≫= k)) = [].
Proof.
  intros Hm Hk. destruct m as [tr [e|a]]; [exact Hm|].
  erewrite bind_trace by reflexivity. cbn [fst] in *.
  rewrite verifies_app, Hm, Hk. reflexivity.
Qed.

Lemma verifies_call (ev : event) (r : option error) (prefix : bytes) :
  verifies [ev] = [] -> verifies (fst (call ev r prefix)) = [].
Proof. intros H. destruct r; exact H. Qed.

Lemma verifies_wrap {A : Type} (prefix : bytes) (m : M A) :
  verifies (fst (wrap prefix m)) = verifies (fst m).
Proof. destruct m as [tr [e|a]]; reflexivity. Qed.

Lemma verifies_downloadAttempts (env : Env) (remaining : nat) : forall attempt lastErr,
  verifies (fst (downloadAttempts env remaining attempt lastErr)) = [].
Proof.
  induction remaining as [|r IH]; intros attempt lastErr; [reflexivity|].
  cbn [downloadAttempts]. apply verifies_bind.
  - destruct (1 <? attempt); [|reflexivity]. destruct (ctxDone env attempt); reflexivity.
  - intros _. destruct (outcome env attempt); try reflexivity;
      (apply verifies_bind; [reflexivity|intros _; apply IH]).
Qed.

Ltac no_verify :=
  repeat first
    [ reflexivity
    | apply verifies_downloadAttempts
    | rewrite verifies_wrap
    | apply verifies_call
    | apply verifies_bind; [|intros _]
    | match goal with |- context [if ?b then _ else _] => destruct b end
    | match goal with |- context [match ?x with _ => _ end] => destruct x end ].

(** C10. Both installers verify the checksum of a download only when the
    checksum configured for the platform is a non-empty string: with the
    empty string, or no entry, they run as if there were no such step, and
    never call [verifyChecksum].  That is so for every language of the
    shipped table, on every platform. *)
Theorem checksum_only_when_configured :
  (forall (env : Env) (cacheDir lang : bytes) (metadata : LSPServerMetadata),
     mapGet (Checksums metadata) (GetPlatformKey env) = [] ->
     downloadAndInstall env cacheDir lang metadata = installUnchecked env cacheDir lang metadata /\
     verifies (fst (downloadAndInstall env cacheDir lang metadata)) = []) /\
  (forall (env : pkgmgr.Env) (packagesDir packageName : bytes) (metadata : pkgmgr.LSPMetadata),
     mapGet (pkgmgr.Checksums metadata) (pkgmgr.GetPlatformKey env) = [] ->
     verifies (fst (pkgmgr.Install env packagesDir packageName metadata)) = []) /\
  (forall (resolve : bytes -> option bytes) (env : Env) (cacheDir lang platform : bytes)
          (metadata : LSPServerMetadata),
     GetLSPMetadata resolve lang = Some metadata ->
     mapGet (Checksums metadata) platform = [] /\
     verifies (fst (downloadAndInstall env cacheDir lang metadata)) = []).
Proof.
  assert (H1 : forall (env : Env) (cacheDir lang : bytes) (metadata : LSPServerMetadata),
     mapGet (Checksums metadata) (GetPlatformKey env) = [] ->
     downloadAndInstall env cacheDir lang metadata = installUnchecked env cacheDir lang metadata /\
     verifies (fst (downloadAndInstall env cacheDir lang metadata)) = []).
  { intros env cacheDir lang metadata Hc.
    assert (E : downloadAndInstall env cacheDir lang metadata
                = installUnchecked env cacheDir lang metadata).
    { unfold downloadAndInstall, installUnchecked. rewrite Hc.
      destruct (DownloadURLs metadata !! GetPlatformKey env); [|reflexivity].
      destruct (decide (@nil ascii <> [])) as [Hne|_]; [contradiction|].
      destruct (call _ (mkdirAll env) _) as [tr1 [e|[]]]; [reflexivity|].
      erewrite !(bind_trace (tr1, inr tt)) by reflexivity. f_equal; cbn beta.
      all: destruct (call _ (createTemp env) _) as [tr2 [e|[]]]; [reflexivity|].
      all: erewrite !(bind_trace (tr2, inr tt)) by reflexivity; cbn beta.
      all: destruct (wrap _ (downloadFile env)) as [tr3 [e|[]]]; [reflexivity|].
      all: erewrite !(bind_trace (tr3, inr tt)) by reflexivity; cbn beta.
      all: erewrite (bind_trace (ret tt)) by reflexivity; reflexivity. }
    split; [exact E|]. rewrite E. unfold installUnchecked, downloadFile. no_verify. }
  split; [exact H1|]. split.
  - intros env packagesDir packageName metadata Hc.
    unfold pkgmgr.Install, downloadFile. rewrite Hc.
    destruct (decide (@nil ascii <> [])) as [Hne|_]; [contradiction|].
    no_verify.
  - intros resolve env cacheDir lang platform metadata Hl.
    assert (Hc : forall pf, mapGet (Checksums metadata) pf = []).
    { intros pf. unfold GetLSPMetadata in Hl.
      destruct (lspMetadata !! lang) as [md|] eqn:E; [|discriminate Hl].
      cbn in Hl. injection Hl as <-. cbn [Checksums].
      eapply lspMetadata_no_checksum, E. }
    split; [apply Hc|apply H1, Hc].
Qed.

(** With a checksum configured, the step is there, and a wrong digest fails
    the installation. *)
Example checksum_verified_when_configured :
  downloadAndInstall (linuxEnv Downloaded (bs "abc")) (bs "/c") (bs "x")
    {| Name := bs "x"; Version := bs "1"; BinaryName := bs "x";
       DownloadURLs := {[ bs "linux-amd64" := bs "https://example.org/x.tar.gz" ]};
       Checksums := {[ bs "linux-amd64" := bs "00" ]};
       IsArchive := true; ArchivePath := bs "x" |}
  = ([EvMkdirAll (bs "/c/x/1"); EvCreateTemp; EvAttempt 1; EvVerifyChecksum (bs "00")],
     inl (bs "checksum verification failed: checksum mismatch: expected 00, got ba7816bf8f01cfea414140de5dae2223b00361a396177a9cb410ff61f20015ad")).
Proof. vm_compute. reflexivity. Qed.

Lemma checksum_only_when_configured_witness :
  verifies (fst (downloadAndInstall (linuxEnv Downloaded (bs "tarball")) (bs "/c") (bs "x")
    {| Name := bs "x"; Version := bs "1"; BinaryName := bs "x";
       DownloadURLs := {[ bs "linux-amd64" := bs "https://example.org/x.tar.gz" ]};
       Checksums := {[ bs "linux-amd64" := [] ]};
       IsArchive := true; ArchivePath := bs "x" |})) = [] /\
  match GetLSPMetadata (fun _ => Some (bs "v0.21.2")) (bs "go") with
  | Some metadata =>
      mapGet (Checksums metadata) (bs "linux-amd64") = [] /\
      verifies (fst (downloadAndInstall (linuxEnv Downloaded (bs "tarball")) (bs "/c") (bs "go")
                       metadata)) = []
  | None => False
  end.
Proof.
  split.
  - apply (proj1 checksum_only_when_configured). vm_compute. reflexivity.
  - destruct (GetLSPMetadata (fun _ => Some (bs "v0.21.2")) (bs "go")) as [metadata|] eqn:E.
    + exact (proj2 (proj2 checksum_only_when_configured) (fun _ => Some (bs "v0.21.2"))
               (linuxEnv Downloaded (bs "tarball")) (bs "/c") (bs "go") (bs "linux-amd64")
               metadata E).
    + vm_compute in E. discriminate E.
Defined.

End Checksums.

Section URI.

(** C9. On the Unix build, for every absolute path that [filepath.Clean]
    leaves unchanged, [PathToURI] prepends ["file://"] and [URIToPath] undoes
    it, whatever the working directory. *)
Theorem uri_roundtrip (wd : option bytes) (p : bytes) :
  filepath.IsAbs p = true ->
  filepath.Clean p = p ->
  util.PathToURI wd p = bs "file://" ++ p /\
  util.URIToPath (util.PathToURI wd p) = p.
Proof.
  intros Habs Hclean.
  assert (Huri : util.PathToURI wd p = bs "file://" ++ p).
  { unfold util.PathToURI, filepath.Abs. rewrite Habs, Hclean. reflexivity. }
  split; [exact Huri|].
  rewrite Huri. unfold util.URIToPath.
  rewrite HasPrefix_app. reflexivity.
Qed.

Lemma uri_roundtrip_witness :
  util.PathToURI None (bs "/home/u/x.go") = bs "file://" ++ bs "/home/u/x.go" /\
  util.URIToPath (util.PathToURI None (bs "/home/u/x.go")) = bs "/home/u/x.go".
Proof. apply uri_roundtrip; reflexivity. Defined.

End URI.

Section NodeID.

Lemma decodeByte_encodeByte (c : ascii) :
  match hex.encodeByte c with
  | [hi; lo] => hex.decodeByte hi lo = c
  | _ => False
  end.
Proof. destruct c as [[] [] [] [] [] [] [] []]; vm_compute; reflexivity. Qed.

Lemma encodeByte_inj (c d : ascii) : hex.encodeByte c = hex.encodeByte d -> c = d.
Proof.
  intros E. pose proof (decodeByte_encodeByte c) as Hc.
  pose proof (decodeByte_encodeByte d) as Hd. rewrite E in Hc.
  destruct (hex.encodeByte d) as [|hi [|lo [|]]]; try contradiction.
  congruence.
Qed.

Lemma encodeByte_length (c : ascii) : length (hex.encodeByte c) = 2%nat.
Proof. reflexivity. Qed.

Lemma EncodeToString_inj (a b : bytes) :
  hex.EncodeToString a = hex.EncodeToString b -> a = b.
Proof.
  revert b. induction a as [|c a IH]; intros [|d b] E; try reflexivity;
    try discriminate E.
  unfold hex.EncodeToString in E. simpl in E.
  assert (E' := f_equal (take 2) E). assert (E'' := f_equal (drop 2) E).
  simpl in E', E''. f_equal.
  - apply encodeByte_inj. exact E'.
  - apply IH. exact E''.
Qed.

Lemma EncodeToString_length (a : bytes) :
  length (hex.EncodeToString a) = (2 * length a)%nat.
Proof.
  induction a as [|c a IH]; [reflexivity|].
  unfold hex.EncodeToString in *. simpl. rewrite IH. lia.
Qed.

Lemma Sum256_length (data : bytes) : length (sha256.Sum256 data) = 32%nat.
Proof. unfold sha256.Sum256. rewrite length_map. reflexivity. Qed.

(** The input of the hash determines the pair when no file path holds a
    colon. *)
Lemma join_inj (p n p' n' : bytes) :
  ":"%char ∉ p -> ":"%char ∉ p' ->
  p ++ bs ":" ++ n = p' ++ bs ":" ++ n' -> p = p' /\ n = n'.
Proof.
  revert p'. induction p as [|c p IH]; intros [|c' p'] Hp Hp' E; simpl in E.
  - injection E as E. auto.
  - injection E as E1 E2. subst c'. exfalso. apply Hp'. left.
  - injection E as E1 E2. subst c. exfalso. apply Hp. left.
  - injection E as E1 E2. subst c'.
    destruct (IH p') as [-> ->]; auto.
    + intros H. apply Hp. right. exact H.
    + intros H. apply Hp'. right. exact H.
Qed.

Lemma GenerateNodeID_join (p n p' n' : bytes) :
  p ++ bs ":" ++ n = p' ++ bs ":" ++ n' ->
  util.GenerateNodeID p n = util.GenerateNodeID p' n'.
Proof. unfold util.GenerateNodeID. intros ->. reflexivity. Qed.

(** C3 (amended). The identifier of a pair is the 64-character lower-case hex
    form of the SHA-256 digest of [filePath ++ ":" ++ symbolName]: it depends
    on the pair only through that joined string, so equal joined strings give
    equal identifiers, and two identifiers agree exactly when the digests
    do. *)
Theorem GenerateNodeID_deterministic (p n p' n' : bytes) :
  util.GenerateNodeID p n = hex.EncodeToString (sha256.Sum256 (p ++ bs ":" ++ n)) /\
  length (util.GenerateNodeID p n) = 64%nat /\
  (p ++ bs ":" ++ n = p' ++ bs ":" ++ n' ->
   util.GenerateNodeID p n = util.GenerateNodeID p' n') /\
  (util.GenerateNodeID p n = util.GenerateNodeID p' n' <->
   sha256.Sum256 (p ++ bs ":" ++ n) = sha256.Sum256 (p' ++ bs ":" ++ n')).
Proof.
  split; [reflexivity|]. split; [|split; [|split]].
  - unfold util.GenerateNodeID.
    rewrite EncodeToString_length, Sum256_length. reflexivity.
  - apply GenerateNodeID_join.
  - unfold util.GenerateNodeID. apply EncodeToString_inj.
  - unfold util.GenerateNodeID. intros ->. reflexivity.
Qed.

(** C3 as stated fails: a Lua source [/w/a.lua] defining the method [b.lua:f]
    and a file [/w/a.lua:b.lua] defining [f] are distinct pairs with one
    identifier. *)
Lemma GenerateNodeID_collision :
  (bs "/w/a.lua", bs "b.lua:f") <> (bs "/w/a.lua:b.lua", bs "f") /\
  util.GenerateNodeID (bs "/w/a.lua") (bs "b.lua:f")
  = util.GenerateNodeID (bs "/w/a.lua:b.lua") (bs "f").
Proof.
  split; [discriminate|].
  apply GenerateNodeID_join. reflexivity.
Qed.

End NodeID.
